(** * SmartInbox: the semantic classification engine

    A shallow embedding of [backend/app/services/local_embeddings.py] and
    [backend/app/services/semantic_classifier.py], and the properties of the
    classification engine stated over it.

    Modelling conventions.
    - Python floats and numpy scalars are read as real numbers ([R]): the
      arithmetic is exact, so a statement "up to floating tolerance" becomes
      an equation.  Overflow, NaN and rounding of the machine formats are
      outside this model.
    - An embedding ([np.ndarray] of one dimension) is a [list R].
    - A Python [dict] is an association list in insertion order with unique
      keys; [dict_set] is [d[k] = v].
    - [list(set(labels))] has no specified order: the [labels] field is a
      [gset string].
    - Exceptions ([ValueError] of [np.dot] on different shapes, [max] on an
      empty mapping, [KeyError]) are [None] in the state-and-error monad [M].
    - The sentence-transformers model and the [:.2f] float formatting are not
      part of the repository: they are the operations of the class
      [SentenceTransformer] and a section variable. *)

From Stdlib Require Import Reals Lra ZArith Ascii.
From stdpp Require Import base option list strings gmap sorting.

Set Default Proof Using "Type".
Set Warnings "-clear-no-such-hyp".

(** ** Python built-ins on numbers *)

Module Py.

Local Open Scope R_scope.

(** [max(a, b)]: the first argument is kept unless the second is strictly
    greater. *)
Definition max2 (a b : R) : R := if Rlt_dec a b then b else a.

(** [min(a, b)]: the first argument is kept unless the second is strictly
    smaller. *)
Definition min2 (a b : R) : R := if Rlt_dec b a then b else a.

(** [int(x)]: truncation towards zero. *)
Definition int (x : R) : Z := if Rlt_dec x 0 then Zceil x else Zfloor x.

(** [x >= y] as a test. *)
Definition geb (x y : R) : bool := if Rle_dec y x then true else false.

(** [x == 0] as a test. *)
Definition is_zero (x : R) : bool := if Req_dec_T x 0 then true else false.

End Py.

(** ** local_embeddings.py *)

Abbreviation vec := (list R).

Module np.

Local Open Scope R_scope.

(** [np.dot] of two one-dimensional arrays: the sum of the products, and
    a [ValueError] when the shapes differ. *)
Fixpoint dot (a b : vec) : option R :=
  match a, b with
  | [], [] => Some 0
  | x :: a', y :: b' =>
      match dot a' b' with
      | Some r => Some (x * y + r)
      | None => None
      end
  | _, _ => None
  end.

(** Sum of the squares of the entries. *)
Fixpoint sumsq (a : vec) : R :=
  match a with
  | [] => 0
  | x :: a' => x * x + sumsq a'
  end.

(** [np.linalg.norm] of a one-dimensional array: the Euclidean norm. *)
Definition linalg_norm (a : vec) : R := sqrt (sumsq a).

End np.

(** [cosine_similarity(vec1, vec2)], local_embeddings.py lines 48-55. *)
Definition cosine_similarity (vec1 vec2 : vec) : option R :=
  match np.dot vec1 vec2 with
  | None => None
  | Some dot_product =>
      let norm1 := np.linalg_norm vec1 in
      let norm2 := np.linalg_norm vec2 in
      if Py.is_zero norm1 || Py.is_zero norm2 then Some 0%R
      else Some (dot_product / (norm1 * norm2))%R
  end.

(** The calls made to the sentence-transformers model, in program order
    (the list grows at its end). *)
Inductive encode_call : Type :=
| EncodeText (text : string)
| EncodeTexts (texts : list string) (batch_size : nat).

(** The module globals of local_embeddings.py: whether [_model] has been
    loaded, and the trace of the [model.encode] calls made so far. *)
Record local_embeddings_state : Type := {
  _model_loaded : bool;
  encode_trace : list encode_call;
}.

(** The external model: [encode] is [model.encode(text)] on one string, and
    [encode_batch] is [model.encode(texts, batch_size=...)] on a list, read
    as the list of its rows. *)
Class SentenceTransformer : Type := {
  encode : string → vec;
  encode_batch : list string → nat → list vec;
}.

(** ** Python built-ins on strings and dicts *)

Definition newline : string := String "010"%char EmptyString.

(** [s.split(sep)] for a separator of one character. *)
Fixpoint split (sep : ascii) (s : string) : list string :=
  match s with
  | EmptyString => [EmptyString]
  | String c s' =>
      if Ascii.eqb c sep then EmptyString :: split sep s'
      else match split sep s' with
           | [] => [String c EmptyString]
           | p :: ps => String c p :: ps
           end
  end.

(** [s[:n]]: the first [n] characters, or all of [s] when it is shorter. *)
Fixpoint str_take (n : nat) (s : string) : string :=
  match n, s with
  | S n', String c s' => String c (str_take n' s')
  | _, _ => EmptyString
  end.

(** [bool(s)] of a string: it is not empty. *)
Definition truthy (s : string) : bool :=
  match s with EmptyString => false | String _ _ => true end.

Definition dict (V : Type) : Type := list (string * V).

(** [d[k] = v]: an existing key keeps its place, a new key goes last. *)
Fixpoint dict_set {V : Type} (k : string) (v : V) (d : dict V) : dict V :=
  match d with
  | [] => [(k, v)]
  | (k', v') :: d' =>
      if decide (k' = k) then (k', v) :: d' else (k', v') :: dict_set k v d'
  end.

(** [d[k]], [None] for the [KeyError]. *)
Fixpoint dict_get {V : Type} (k : string) (d : dict V) : option V :=
  match d with
  | [] => None
  | (k', v') :: d' => if decide (k' = k) then Some v' else dict_get k d'
  end.

(** [email.get(key, "")] on a message given as a dict of strings. *)
Definition get_or_empty (email : gmap string string) (key : string) : string :=
  default EmptyString (email !! key).

(** ** semantic_classifier.py: data *)

Record ClassificationResult : Type := {
  category : string;
  confidence : Z;
  labels : gset string;
  reason : string;
}.

(** The instance attributes of [SemanticEmailClassifier]. *)
Record SemanticEmailClassifier : Type := {
  _category_embeddings : dict vec;
  _initialized : bool;
}.

(** [SemanticEmailClassifier.__init__]. *)
Definition __init__ : SemanticEmailClassifier :=
  {| _category_embeddings := []; _initialized := false |}.

(** [SemanticEmailClassifier.CATEGORY_DESCRIPTIONS], lines 34-92. *)
Definition CATEGORY_DESCRIPTIONS : dict (list string) := [
  ("work", [
    "Professional work email about meetings, projects, deadlines";
    "Office communication regarding tasks, assignments, reports";
    "Business correspondence with colleagues and managers";
    "Job-related emails about interviews, recruitment, career";
    "Team collaboration on Slack, Jira, GitHub, pull requests";
    "Corporate announcements and company updates";
    "Calendar invites and meeting schedules"]);
  ("personal", [
    "Personal email from friends and family";
    "Casual conversation about life, plans, gatherings";
    "Birthday wishes, congratulations, personal news";
    "Vacation plans, trip discussions, photo sharing";
    "Catching up with old friends, reunion planning";
    "Personal matters and family discussions"]);
  ("social", [
    "Social media notifications from Facebook, Twitter, LinkedIn";
    "Someone liked, commented, or shared your post";
    "New follower or friend request notification";
    "Social network activity and engagement alerts";
    "Instagram, TikTok, YouTube notifications";
    "Connection requests and social updates"]);
  ("promotions", [
    "Marketing email with sales, discounts, special offers";
    "Promotional content about deals and limited time offers";
    "E-commerce notifications about new products";
    "Coupon codes, vouchers, and promotional campaigns";
    "Black Friday, holiday sales, clearance events";
    "Shopping recommendations and product suggestions"]);
  ("updates", [
    "Account security alerts and password notifications";
    "Service updates and system notifications";
    "Order confirmation, shipping, and delivery updates";
    "App updates and software notifications";
    "Account verification and login alerts";
    "Subscription and service status updates"]);
  ("finance", [
    "Bank statement and financial transaction alerts";
    "Payment confirmation, invoice, and billing";
    "Credit card and banking notifications";
    "Investment updates and financial reports";
    "Tax documents and financial statements";
    "Money transfer and payment receipts"]);
  ("newsletters", [
    "Newsletter digest and content roundup";
    "Weekly or daily news briefing";
    "Blog updates and article recommendations";
    "Industry news and curated content";
    "Substack, Medium, and publication updates";
    "Educational content and learning resources"])
]%string.

(** ** The state-and-error monad of the two modules *)

Record world : Type := {
  self : SemanticEmailClassifier;
  embeddings_module : local_embeddings_state;
}.

(** A computation reads and writes the [world]; [None] is a raised
    exception. *)
Definition M (A : Type) : Type := world → option (A * world).

Definition ret {A : Type} (a : A) : M A := λ w, Some (a, w).

Definition bind {A B : Type} (m : M A) (k : A → M B) : M B :=
  λ w, match m w with
       | Some (a, w') => k a w'
       | None => None
       end.

(** A pure step that may raise. *)
Definition lift {A : Type} (o : option A) : M A :=
  λ w, match o with
       | Some a => Some (a, w)
       | None => None
       end.

Definition gets {A : Type} (f : world → A) : M A := λ w, Some (f w, w).

Definition modify (f : world → world) : M unit := λ w, Some (tt, f w).

Notation "'let*' x ':=' m 'in' k" := (bind m (λ x, k))
  (at level 10, x pattern, m at level 100, k at level 200,
   format "'[v' 'let*'  x  ':='  m  'in' '/' k ']'").

Definition set_model_loaded (w : world) : world :=
  {| self := self w;
     embeddings_module :=
       {| _model_loaded := true;
          encode_trace := encode_trace (embeddings_module w) |} |}.

Definition record_call (c : encode_call) (w : world) : world :=
  {| self := self w;
     embeddings_module :=
       {| _model_loaded := _model_loaded (embeddings_module w);
          encode_trace := encode_trace (embeddings_module w) ++ [c] |} |}.

Definition set_category_embeddings (d : dict vec) (w : world) : world :=
  {| self := {| _category_embeddings := d;
                _initialized := _initialized (self w) |};
     embeddings_module := embeddings_module w |}.

Definition set_initialized (b : bool) (w : world) : world :=
  {| self := {| _category_embeddings := _category_embeddings (self w);
                _initialized := b |};
     embeddings_module := embeddings_module w |}.

(** ** local_embeddings.py: the calls to the model *)

Section Engine.

Context {model : SentenceTransformer}.

(** Python's [f"{sim:.2f}"], a float written with two decimals. *)
Variable format_2f : R → string.

(** [get_model()], lines 15-24: loads the model on first use. *)
Definition get_model : M unit := modify set_model_loaded.

(** [get_embedding(text)], lines 27-30. *)
Definition get_embedding (text : string) : M vec :=
  let* _ := get_model in
  let* _ := modify (record_call (EncodeText text)) in
  ret (encode text).

(** [get_embeddings_batch(texts, batch_size=32)], lines 33-45. *)
Definition get_embeddings_batch (texts : list string) (batch_size : nat)
  : M (list vec) :=
  match texts with
  | [] => ret []
  | _ :: _ =>
      let* _ := get_model in
      let* _ := modify (record_call (EncodeTexts texts batch_size)) in
      ret (encode_batch texts batch_size)
  end.

(** ** semantic_classifier.py: the engine *)

(** The loop of lines 117-119: [self._category_embeddings[category] =
    embedding] over [zip(category_names, embeddings)]. *)
Fixpoint store_embeddings (pairs : list (string * vec)) (d : dict vec)
  : dict vec :=
  match pairs with
  | [] => d
  | (category, embedding) :: rest =>
      store_embeddings rest (dict_set category embedding d)
  end.

(** [initialize_category_embeddings], lines 99-122. *)
Definition initialize_category_embeddings : M unit :=
  let* initialized := gets (λ w, _initialized (self w)) in
  if initialized : bool then ret tt
  else
    let category_texts :=
      map (λ '(_, descriptions), String.concat " " descriptions)
          CATEGORY_DESCRIPTIONS in
    let category_names := map fst CATEGORY_DESCRIPTIONS in
    let* embeddings := get_embeddings_batch category_texts 32 in
    let* _ := modify (λ w,
      set_category_embeddings
        (store_embeddings (zip category_names embeddings)
                          (_category_embeddings (self w))) w) in
    modify (set_initialized true).

(** [_prepare_email_text], lines 183-201. *)
Definition _prepare_email_text (subject sender content sender_name : string)
  : string :=
  let parts := [] in
  let parts :=
    if truthy subject then parts ++ ["Subject: " +:+ subject] else parts in
  let parts :=
    if truthy sender_name then parts ++ ["From: " +:+ sender_name]
    else if truthy sender
         then parts ++ ["From: " +:+ default EmptyString (head (split "@" sender))]
         else parts in
  let parts :=
    if truthy content
    then let truncated_content := str_take 1500 content in
         parts ++ ["Content: " +:+ truncated_content]
    else parts in
  String.concat newline parts.

(** The loop of lines 148-151 (and 250-253): the similarity of the message
    to every category of the registry, in the registry's order. *)
Fixpoint score_categories (email_embedding : vec) (items : dict vec)
    (similarities : dict R) : option (dict R) :=
  match items with
  | [] => Some similarities
  | (category, cat_embedding) :: rest =>
      match cosine_similarity email_embedding cat_embedding with
      | None => None
      | Some similarity =>
          score_categories email_embedding rest
            (dict_set category similarity similarities)
      end
  end.

(** One step of [max]: the running maximum is replaced only by a strictly
    greater value. *)
Definition max_step (best item : string * R) : string * R :=
  if Rlt_dec (snd best) (snd item) then item else best.

(** [max(similarities, key=similarities.get)]: the first key whose value is
    maximal, and a [ValueError] on the empty dict.  The keys are walked with
    their values, [similarities.get] of a key of the dict being the value
    stored with it. *)
Definition max_key (similarities : dict R) : option string :=
  match similarities with
  | [] => None
  | first :: rest => Some (fst (fold_left max_step rest first))
  end.

(** Line 159 (and 260): [int(min(95, max(0, best_similarity * 150)))]. *)
Definition to_confidence (best_similarity : R) : Z :=
  Py.int (Py.min2 95 (Py.max2 0 (best_similarity * 150))).

(** The loop of lines 167-170 (and 268-271). *)
Fixpoint collect_labels (best_category : string) (items : dict R)
    (labels : list string) : list string :=
  match items with
  | [] => labels
  | (cat, sim) :: rest =>
      if bool_decide (cat ≠ best_category) && Py.geb (sim * 150) 40
      then collect_labels best_category rest (labels ++ [cat])
      else collect_labels best_category rest labels
  end.

(** Insertion in a list sorted by decreasing value, after the items of the
    same value. *)
Fixpoint insert_desc (x : string * R) (l : list (string * R))
  : list (string * R) :=
  match l with
  | [] => [x]
  | y :: l' =>
      if Rlt_dec (snd y) (snd x) then x :: y :: l' else y :: insert_desc x l'
  end.

(** [sorted(items, key=lambda x: x[1], reverse=True)]: a stable sort by
    decreasing value. *)
Definition sorted_desc (items : list (string * R)) : list (string * R) :=
  fold_left (λ acc x, insert_desc x acc) items [].

(** Lines 173-174 (and 274-275). *)
Definition build_reason (similarities : dict R) : string :=
  let top_3 := take 3 (sorted_desc similarities) in
  "Semantic(local): " +:+
  String.concat ", " (map (λ '(cat, sim), cat +:+ "=" +:+ format_2f sim) top_3).

(** [classify], lines 124-181. *)
Definition classify (subject sender content sender_name : string)
  : M ClassificationResult :=
  let* initialized := gets (λ w, _initialized (self w)) in
  let* _ := (if initialized : bool then ret tt
             else initialize_category_embeddings) in
  let email_text := _prepare_email_text subject sender content sender_name in
  let* email_embedding := get_embedding email_text in
  let* items := gets (λ w, _category_embeddings (self w)) in
  let* similarities := lift (score_categories email_embedding items []) in
  let* best_category := lift (max_key similarities) in
  let* best_similarity := lift (dict_get best_category similarities) in
  let confidence := to_confidence best_similarity in
  let '(best_category, confidence) :=
    if (confidence <? 30)%Z then ("primary", 50%Z)
    else (best_category, confidence) in
  let labels := collect_labels best_category similarities [best_category] in
  let reason := build_reason similarities in
  ret {| category := best_category;
         confidence := confidence;
         labels := list_to_set labels;
         reason := reason |}.

(** The loop of lines 247-282 of [classify_batch], over the embeddings of
    the batch; [items] is [self._category_embeddings.items()]. *)
Fixpoint classify_embeddings (items : dict vec) (all_embeddings : list vec)
    (results : list ClassificationResult)
  : option (list ClassificationResult) :=
  match all_embeddings with
  | [] => Some results
  | email_embedding :: rest =>
      match score_categories email_embedding items [] with
      | None => None
      | Some similarities =>
          match max_key similarities with
          | None => None
          | Some best_category =>
              match dict_get best_category similarities with
              | None => None
              | Some best_similarity =>
                  let confidence := to_confidence best_similarity in
                  let '(best_category, confidence) :=
                    if (confidence <? 30)%Z then ("primary", 50%Z)
                    else (best_category, confidence) in
                  let labels :=
                    collect_labels best_category similarities
                                   [best_category] in
                  let reason := build_reason similarities in
                  classify_embeddings items rest
                    (results ++ [{| category := best_category;
                                    confidence := confidence;
                                    labels := list_to_set labels;
                                    reason := reason |}])
              end
          end
      end
  end.

(** [classify_batch], lines 203-285. *)
Definition classify_batch (emails : list (gmap string string))
    (batch_size : nat) : M (list ClassificationResult) :=
  match emails with
  | [] => ret []
  | _ :: _ =>
      let* initialized := gets (λ w, _initialized (self w)) in
      let* _ := (if initialized : bool then ret tt
                 else initialize_category_embeddings) in
      let email_texts :=
        map (λ email,
               _prepare_email_text (get_or_empty email "subject")
                                   (get_or_empty email "sender")
                                   (get_or_empty email "content")
                                   (get_or_empty email "sender_name"))
            emails in
      let* all_embeddings := get_embeddings_batch email_texts batch_size in
      let* items := gets (λ w, _category_embeddings (self w)) in
      lift (classify_embeddings items all_embeddings [])
  end.

End Engine.

(** ** The specification's vocabulary *)

Module Spec.

Local Open Scope R_scope.

(** The fixed taxonomy order of the scored categories. *)
Definition taxonomy : list string :=
  ["work"; "personal"; "social"; "promotions"; "updates"; "finance";
   "newsletters"]%string.

(** The closed set of category names: the taxonomy and the fallback
    target. *)
Definition category_names : gset string :=
  list_to_set ("primary"%string :: taxonomy).

(** Dot product and magnitude of vectors, as sums over the entries. *)
Definition dot_product (a b : vec) : R :=
  foldr Rplus 0 (zip_with Rmult a b).

Definition magnitude (a : vec) : R :=
  sqrt (foldr Rplus 0 (map (λ x, x * x) a)).

(** Rounding to the nearest integer (a tie goes up). *)
Definition round (x : R) : Z := Zfloor (x + 1 / 2).

(** [z] is an integer nearest to [x], whatever the rule for ties. *)
Definition nearest (x : R) (z : Z) : Prop := Rabs (IZR z - x) <= 1 / 2.

Definition clamp (lo hi x : Z) : Z := Z.max lo (Z.min hi x).

(** The confidence conversion in the specification's words:
    [clamp(0, 95, round(best_similarity * 150))]. *)
Definition confidence_of (best_similarity : R) : Z :=
  clamp 0 95 (round (best_similarity * 150)).

(** The lines of the composite text, each present or omitted. *)
Definition subject_line (subject : string) : option string :=
  if decide (subject = EmptyString) then None
  else Some ("Subject: " +:+ subject)%string.

(** [local] is the local part of the address [sender]: the part of [sender]
    before its first ['@'], all of [sender] when it has none. *)
Definition is_local_part (sender local : string) : Prop :=
  (∀ c, c ∈ String.list_ascii_of_string local → c ≠ "@"%char) ∧
  (sender = local ∨ ∃ rest, sender = (local +:+ "@" +:+ rest)%string).

(** The sender line: the display name when there is one, else the local
    part of the address. *)
Definition from_line (sender_name sender local : string) : option string :=
  if decide (sender_name ≠ EmptyString)
  then Some ("From: " +:+ sender_name)%string
  else if decide (sender ≠ EmptyString)
       then Some ("From: " +:+ local)%string
       else None.

Definition content_line (content : string) : option string :=
  if decide (content = EmptyString) then None
  else Some ("Content: " +:+ String.substring 0 1500 content)%string.

(** The present lines joined by newline separators. *)
Definition join_lines (lines : list (option string)) : string :=
  String.concat newline (omap (λ line, line) lines).

End Spec.

(** The four fields of a message of a batch and its composite text. *)
Definition text_of_email (email : gmap string string) : string :=
  _prepare_email_text (get_or_empty email "subject")
                      (get_or_empty email "sender")
                      (get_or_empty email "content")
                      (get_or_empty email "sender_name").

(** ** Results and the messages they come from *)

Section Outcomes.

Context {model : SentenceTransformer}.
Variable format_2f : R → string.

(** Lines 153-181 (and 255-282) as one function of the similarities, the
    form in which the proofs compare the two entry points. *)
Definition decide_result (similarities : dict R)
  : option ClassificationResult :=
  best_category ← max_key similarities;
  best_similarity ← dict_get best_category similarities;
  let confidence := to_confidence best_similarity in
  let best_category :=
    if (confidence <? 30)%Z then "primary"%string else best_category in
  let confidence := if (confidence <? 30)%Z then 50%Z else confidence in
  Some {| category := best_category;
          confidence := confidence;
          labels := list_to_set (collect_labels best_category similarities
                                                [best_category]);
          reason := build_reason format_2f similarities |}.

(** The texts of lines 107-112, one per category: its descriptions joined
    by spaces. *)
Definition category_texts : list string :=
  map (λ '(_, descriptions), String.concat " " descriptions)
      CATEGORY_DESCRIPTIONS.

(** The world after lines 138-139 (and 225-226): the registry is
    initialized when it was not. *)
Definition init_world (w : world) : world :=
  if _initialized (self w) then w
  else
    let category_names := map fst CATEGORY_DESCRIPTIONS in
    let w1 := record_call (EncodeTexts category_texts 32)
                          (set_model_loaded w) in
    set_initialized true
      (set_category_embeddings
         (store_embeddings (zip category_names (encode_batch category_texts 32))
                           (_category_embeddings (self w1))) w1).

(** One item of the batch: scoring and decision. *)
Definition classify_embedding (items : dict vec) (email_embedding : vec)
  : option ClassificationResult :=
  score_categories email_embedding items [] ≫= decide_result.

(** [classified items v r]: a call of [classify], or an item of a call of
    [classify_batch], returned the result [r]; [v] is the embedding of that
    message and [items] the registry [self._category_embeddings] it was
    scored against (the registry the call leaves behind). *)
Inductive classified : dict vec → vec → ClassificationResult → Prop :=
| classified_single subject sender content sender_name w r w' :
    classify format_2f subject sender content sender_name w = Some (r, w') →
    classified (_category_embeddings (self w'))
               (encode (_prepare_email_text subject sender content sender_name))
               r
| classified_batch emails batch_size w rs w' i r email_embedding :
    classify_batch format_2f emails batch_size w = Some (rs, w') →
    rs !! i = Some r →
    encode_batch (map text_of_email emails) batch_size !! i
      = Some email_embedding →
    classified (_category_embeddings (self w')) email_embedding r.

End Outcomes.

(** The registry holds scored categories only. *)
Definition registry_ok (c : SemanticEmailClassifier) : Prop :=
  Forall (λ k, k ∈ Spec.taxonomy) (map fst (_category_embeddings c)).

(** The registry holds the seven categories in the taxonomy order. *)
Definition registry_ready (c : SemanticEmailClassifier) : Prop :=
  map fst (_category_embeddings c) = Spec.taxonomy.

(** The provider's contract: a batch is embedded as its texts are one by
    one, whatever the batch size. *)
Definition batch_is_map (model : SentenceTransformer) : Prop :=
  ∀ texts batch_size, encode_batch texts batch_size = map encode texts.

(** The world at process start: nothing loaded, a new classifier. *)
Definition fresh_world : world :=
  {| self := __init__;
     embeddings_module := {| _model_loaded := false; encode_trace := [] |} |}.

(** ** A small model for examples *)

Module Toy.

Local Open Scope R_scope.

(** Embeddings in the plane, chosen by the first character of the text. *)
Definition embed (text : string) : vec :=
  match text with
  | EmptyString => [0; 0]
  | String c _ =>
      if Ascii.eqb c "S" then [3; 4]
      else if Ascii.eqb c "P" then [1; 0]
      else if Ascii.eqb c "M" then [0; 1]
      else if Ascii.eqb c "N" then [4; 3]
      else if Ascii.eqb c "B" then [-1; 0]
      else if Ascii.eqb c "F" then [5; 12]
      else [0; 0]
  end.

Definition model : SentenceTransformer :=
  {| encode := embed; encode_batch := λ texts _, map embed texts |}.

(** A formatting that only tells the sign. *)
Definition format (x : R) : string :=
  if Rlt_dec x 0 then "-" else "+".

(** The registry this model gives to the seven categories. *)
Definition registry : dict vec :=
  [("work", [1; 0]); ("personal", [1; 0]); ("social", [3; 4]);
   ("promotions", [0; 1]); ("updates", [0; 0]); ("finance", [-1; 0]);
   ("newsletters", [4; 3])]%string.

(** A message with the subject "Hi" and nothing else: its text starts with
    "S", its embedding is [3; 4]. *)
Definition email_hi : gmap string string := {[ "subject" := "Hi" ]}%string.

Definition similarities_hi : dict R :=
  [("work", 3 / 5); ("personal", 3 / 5); ("social", 1);
   ("promotions", 4 / 5); ("updates", 0); ("finance", -3 / 5);
   ("newsletters", 24 / 25)]%string.

Definition result_hi : ClassificationResult :=
  {| category := "social";
     confidence := 95;
     labels := list_to_set
                 ["social"; "work"; "personal"; "promotions"; "newsletters"];
     reason := "Semantic(local): social=+, newsletters=+, promotions=+" |}%string.

(** A message with no field at all: its text is empty, its embedding the
    zero vector. *)
Definition email_empty : gmap string string := ∅.

Definition similarities_empty : dict R :=
  [("work", 0); ("personal", 0); ("social", 0); ("promotions", 0);
   ("updates", 0); ("finance", 0); ("newsletters", 0)]%string.

Definition result_empty : ClassificationResult :=
  {| category := "primary";
     confidence := 50;
     labels := list_to_set ["primary"];
     reason := "Semantic(local): work=+, personal=+, social=+" |}%string.

End Toy.

(** ** Calls in sequence, and the global instance *)

Section Calls.

Context {model : SentenceTransformer}.
Variable format_2f : R → string.

(** One call of an entry point that returns takes the world [w] to [w']. *)
Inductive call_step : world → world → Prop :=
| step_classify subject sender content sender_name w r w' :
    classify format_2f subject sender content sender_name w = Some (r, w') →
    call_step w w'
| step_classify_batch emails batch_size w rs w' :
    classify_batch format_2f emails batch_size w = Some (rs, w') →
    call_step w w'.

(** The module globals of both files: [_classifier_instance] of
    semantic_classifier.py (line 289) and the globals of
    local_embeddings.py. *)
Record process : Type := {
  _classifier_instance : option SemanticEmailClassifier;
  local_embeddings : local_embeddings_state;
}.

(** [get_semantic_classifier()], lines 292-297: the instance, created on
    first use. The instance is returned with the process in which it is
    stored. *)
Definition get_semantic_classifier (p : process)
  : SemanticEmailClassifier * process :=
  match _classifier_instance p with
  | None =>
      (__init__, {| _classifier_instance := Some __init__;
                    local_embeddings := local_embeddings p |})
  | Some classifier => (classifier, p)
  end.

(** [classify_email], lines 301-304: [classify] on the global instance; what
    the call does to the instance is stored back under the global. *)
Definition classify_email (subject sender content sender_name : string)
    (p : process) : option (ClassificationResult * process) :=
  let '(classifier, p1) := get_semantic_classifier p in
  match classify format_2f subject sender content sender_name
          {| self := classifier; embeddings_module := local_embeddings p1 |}
  with
  | Some (r, w') =>
      Some (r, {| _classifier_instance := Some (self w');
                  local_embeddings := embeddings_module w' |})
  | None => None
  end.

End Calls.

(** The process at start: no instance, nothing loaded. *)
Definition fresh_process : process :=
  {| _classifier_instance := None;
     local_embeddings := {| _model_loaded := false; encode_trace := [] |} |}.

(** A provider whose single embeddings have another dimension than the
    rows of its batches, for examples. *)
Definition ragged_model : SentenceTransformer :=
  {| encode := λ _, [1%R]; encode_batch := λ texts _, map Toy.embed texts |}.

(** A content prefix of 1500 characters, for examples. *)
Definition long_prefix : string :=
  String.string_of_list_ascii (replicate 1500 "x"%char).

(** * Properties *)

(** ** The similarity scorer *)

Section Cosine.

Local Open Scope R_scope.

Lemma dot_is_dot_product (a b : vec) :
  length a = length b → np.dot a b = Some (Spec.dot_product a b).
Proof.
  revert b. induction a as [|x a IH]; intros [|y b] Hlen; simplify_eq/=.
  - reflexivity.
  - by rewrite (IH b).
Qed.

Lemma dot_defined_iff (a b : vec) :
  is_Some (np.dot a b) ↔ length a = length b.
Proof.
  split.
  - revert b. induction a as [|x a IH]; intros [|y b] [d Hd]; simplify_eq/=.
    + reflexivity.
    + destruct (np.dot a b) eqn:E; [|discriminate]. f_equal. apply IH. eauto.
  - intros Hlen. rewrite dot_is_dot_product by done. eauto.
Qed.

Lemma norm_is_magnitude (a : vec) : np.linalg_norm a = Spec.magnitude a.
Proof.
  unfold np.linalg_norm, Spec.magnitude. f_equal.
  induction a as [|x a IH]; simpl; [reflexivity | by rewrite IH].
Qed.

Lemma dot_self (v : vec) : np.dot v v = Some (np.sumsq v).
Proof. induction v as [|x v IH]; simpl; [reflexivity | by rewrite IH]. Qed.

Lemma sumsq_nonneg (v : vec) : 0 <= np.sumsq v.
Proof. induction v as [|x v IH]; simpl; nra. Qed.

Lemma sumsq_zero_iff (v : vec) : np.sumsq v = 0 ↔ Forall (λ x, x = 0) v.
Proof.
  induction v as [|x v IH]; simpl.
  - split; [constructor | reflexivity].
  - pose proof (sumsq_nonneg v). split.
    + intros Hs. assert (x = 0) by nra. assert (np.sumsq v = 0) by nra.
      constructor; [done | by apply IH].
    + intros Hall. apply Forall_cons in Hall as [-> Hv].
      apply IH in Hv. lra.
Qed.

(** A vector has magnitude zero exactly when all its entries are zero. *)
Lemma magnitude_zero_iff (v : vec) :
  Spec.magnitude v = 0 ↔ Forall (λ x, x = 0) v.
Proof.
  rewrite <- norm_is_magnitude, <- sumsq_zero_iff. unfold np.linalg_norm.
  split.
  - intros Hs. apply sqrt_eq_0; [apply sumsq_nonneg | done].
  - intros ->. apply sqrt_0.
Qed.

Lemma is_zero_true (x : R) : Py.is_zero x = true ↔ x = 0.
Proof. unfold Py.is_zero. destruct (Req_dec_T x 0); naive_solver. Qed.

Lemma is_zero_false (x : R) : Py.is_zero x = false ↔ x ≠ 0.
Proof. unfold Py.is_zero. destruct (Req_dec_T x 0); naive_solver. Qed.

Lemma cosine_nonzero (a b : vec) (d : R) :
  np.dot a b = Some d → np.linalg_norm a ≠ 0 → np.linalg_norm b ≠ 0 →
  cosine_similarity a b = Some (d / (np.linalg_norm a * np.linalg_norm b)).
Proof.
  intros Hd Ha Hb. unfold cosine_similarity. rewrite Hd.
  apply is_zero_false in Ha, Hb. by rewrite Ha, Hb.
Qed.

Lemma cosine_zero (a b : vec) (d : R) :
  np.dot a b = Some d → np.linalg_norm a = 0 ∨ np.linalg_norm b = 0 →
  cosine_similarity a b = Some 0.
Proof.
  intros Hd Hz. unfold cosine_similarity. rewrite Hd.
  destruct Hz as [Hz|Hz]; apply is_zero_true in Hz; rewrite Hz;
    [reflexivity | by rewrite orb_true_r].
Qed.

(** C5. Cosine similarity of two vectors of the same length: it is the dot
    product over the product of the magnitudes when both magnitudes are not
    zero, and exactly 0 when one of them is zero; hence the similarity of a
    vector with itself is 1 when its magnitude is not zero (an equation here,
    the numbers being exact) and 0 when it is zero. *)
Theorem cosine_similarity_correct (a b v : vec) :
  length a = length b →
  (Spec.magnitude a ≠ 0 → Spec.magnitude b ≠ 0 →
   cosine_similarity a b
   = Some (Spec.dot_product a b / (Spec.magnitude a * Spec.magnitude b))) ∧
  (Spec.magnitude a = 0 ∨ Spec.magnitude b = 0 →
   cosine_similarity a b = Some 0) ∧
  (Spec.magnitude v ≠ 0 → cosine_similarity v v = Some 1) ∧
  (Spec.magnitude v = 0 → cosine_similarity v v = Some 0).
Proof.
  intros Hlen. rewrite <- !norm_is_magnitude.
  pose proof (dot_is_dot_product a b Hlen) as Hd.
  split_and!.
  - intros Ha Hb. by apply cosine_nonzero.
  - intros Hz. by eapply cosine_zero.
  - intros Hv. rewrite (cosine_nonzero v v _ (dot_self v) Hv Hv). f_equal.
    unfold np.linalg_norm in *. rewrite sqrt_sqrt by apply sumsq_nonneg.
    apply Rdiv_diag. intros Hs. apply Hv. rewrite Hs. apply sqrt_0.
  - intros Hv. eapply cosine_zero; [apply dot_self | by left].
Qed.

End Cosine.

(** ** The confidence conversion *)

Section Confidence.

Local Open Scope R_scope.

Lemma max2_is_Rmax (a b : R) : Py.max2 a b = Rmax a b.
Proof.
  unfold Py.max2, Rmax. destruct (Rlt_dec a b), (Rle_dec a b); lra.
Qed.

Lemma min2_is_Rmin (a b : R) : Py.min2 a b = Rmin a b.
Proof.
  unfold Py.min2, Rmin. destruct (Rlt_dec b a), (Rle_dec a b); lra.
Qed.

Lemma int_nonneg (x : R) : 0 <= x → Py.int x = Zfloor x.
Proof. intros Hx. unfold Py.int. destruct (Rlt_dec x 0); [lra | done]. Qed.

Lemma clamped_range (x : R) : 0 <= Py.min2 95 (Py.max2 0 x) <= 95.
Proof.
  unfold Py.min2, Py.max2.
  destruct (Rlt_dec 0 x); destruct (Rlt_dec _ 95); lra.
Qed.

Lemma to_confidence_floor (s : R) :
  to_confidence s = Zfloor (Rmin 95 (Rmax 0 (s * 150))).
Proof.
  unfold to_confidence. rewrite int_nonneg by apply clamped_range.
  by rewrite min2_is_Rmin, max2_is_Rmax.
Qed.

Lemma to_confidence_range (s : R) : (0 ≤ to_confidence s ≤ 95)%Z.
Proof.
  unfold to_confidence. rewrite int_nonneg by apply clamped_range.
  pose proof (clamped_range (s * 150)) as [Hlo Hhi]. split.
  - by apply Zfloor_lub.
  - apply Z.le_trans with (Zfloor 95); [by apply Zfloor_le|].
    by rewrite ZfloorZ.
Qed.

Lemma Zfloor_lt (x : R) (z : Z) : (Zfloor x < z)%Z ↔ x < IZR z.
Proof.
  pose proof (Zfloor_bound x) as [Hlo Hhi]. split.
  - intros Hz. apply Rlt_le_trans with (IZR (Zfloor x) + 1); [done|].
    rewrite <- plus_IZR. apply IZR_le. lia.
  - intros Hx. apply lt_IZR. lra.
Qed.

(** The conversion is below a bound in the range exactly when the scaled
    similarity is. *)
Lemma to_confidence_lt (s : R) (z : Z) :
  (0 < z ≤ 95)%Z → (to_confidence s < z)%Z ↔ s * 150 < IZR z.
Proof.
  intros [Hz0 Hz95]. rewrite to_confidence_floor, Zfloor_lt.
  apply IZR_lt in Hz0. apply IZR_le in Hz95.
  unfold Rmin, Rmax.
  destruct (Rle_dec 0 (s * 150)); destruct (Rle_dec 95 _); split; lra.
Qed.

Lemma to_confidence_at (s : R) (z : Z) :
  (0 ≤ z < 95)%Z → IZR z <= s * 150 < IZR z + 1 → to_confidence s = z.
Proof.
  intros [Hz0 Hz95] [Hlo Hhi]. rewrite to_confidence_floor.
  apply IZR_le in Hz0. apply IZR_lt in Hz95. apply Zfloor_eq.
  assert (IZR z + 1 <= 95).
  { rewrite <- plus_IZR. apply IZR_le. apply lt_IZR in Hz95. lia. }
  unfold Rmin, Rmax.
  destruct (Rle_dec 0 (s * 150)); destruct (Rle_dec 95 _); split; lra.
Qed.

(** C3, as the code has it. The confidence assigned from the best
    similarity [s] is [clamp(0, 95, floor(s * 150))]: the scaled similarity
    is cut to its integer part, not rounded to the nearest integer. *)
Theorem to_confidence_truncates (s : R) :
  to_confidence s = Spec.clamp 0 95 (Zfloor (s * 150)).
Proof.
  rewrite to_confidence_floor. unfold Spec.clamp, Rmin, Rmax.
  pose proof (Zfloor_bound (s * 150)) as [Hlo Hhi].
  destruct (Rle_dec 0 (s * 150)) as [H0|H0].
  - assert (0 ≤ Zfloor (s * 150))%Z by (apply Zfloor_lub; lra).
    destruct (Rle_dec 95 (s * 150)) as [H95|H95].
    + assert (95 ≤ Zfloor (s * 150))%Z by (apply Zfloor_lub; lra).
      rewrite ZfloorZ. lia.
    + assert (Zfloor (s * 150) < 95)%Z by (apply Zfloor_lt; lra). lia.
  - assert (Zfloor (s * 150) < 0)%Z by (apply Zfloor_lt; lra).
    destruct (Rle_dec 95 0); [lra|]. rewrite ZfloorZ. lia.
Qed.

(** C3, as the specification words it, fails: at the best similarity 5/16
    the scaled value is 46.875, which the code turns into 46 and rounding to
    the nearest integer into 47 (46.875 is not a tie: 47 is its only nearest
    integer). *)
Lemma to_confidence_not_rounded :
  to_confidence (5 / 16) = 46%Z ∧ Spec.confidence_of (5 / 16) = 47%Z ∧
  (∀ z, Spec.nearest (5 / 16 * 150) z → z = 47%Z) ∧
  to_confidence (5 / 16) ≠ Spec.confidence_of (5 / 16).
Proof.
  assert (to_confidence (5 / 16) = 46%Z) as H1.
  { apply to_confidence_at; [lia | lra]. }
  assert (Spec.confidence_of (5 / 16) = 47%Z) as H2.
  { unfold Spec.confidence_of, Spec.round.
    rewrite (Zfloor_eq 47); [reflexivity | lra]. }
  rewrite H1, H2. split_and!; [done | done | | done].
  intros z Hz. unfold Spec.nearest in Hz.
  assert (46 < z < 48)%Z; [|lia].
  unfold Rabs in Hz. destruct (Rcase_abs _); split; apply lt_IZR; lra.
Qed.

(** The two conversions also part at the threshold of the fallback: a best
    similarity of 99/500 scales to 29.7, which the code turns into 29 (and
    the fallback applies) and rounding into 30. *)
Lemma to_confidence_below_threshold :
  to_confidence (99 / 500) = 29%Z ∧ Spec.confidence_of (99 / 500) = 30%Z.
Proof.
  split.
  - apply to_confidence_at; [lia | lra].
  - unfold Spec.confidence_of, Spec.round.
    rewrite (Zfloor_eq 30); [reflexivity | lra].
Qed.

End Confidence.

(** ** Text composition *)

Section Text.

Lemma truthy_nonempty (s : string) : truthy s = true ↔ s ≠ EmptyString.
Proof. by destruct s. Qed.

Lemma truthy_decide (s : string) :
  truthy s = bool_decide (s ≠ EmptyString).
Proof. by destruct s. Qed.

Lemma str_take_substring (n : nat) (s : string) :
  str_take n s = String.substring 0 n s.
Proof.
  revert s. induction n as [|n IH]; intros [|c s]; simpl; try done.
  by rewrite IH.
Qed.

Lemma str_take_length (n : nat) (s : string) :
  String.length (str_take n s) = Nat.min n (String.length s).
Proof.
  revert s. induction n as [|n IH]; intros [|c s]; simpl; try done.
  by rewrite IH.
Qed.

Lemma str_take_all (n : nat) (s : string) :
  (String.length s ≤ n)%nat → str_take n s = s.
Proof.
  revert s. induction n as [|n IH]; intros [|c s] Hlen; simpl in *;
    try done; try lia.
  rewrite IH; [done | lia].
Qed.

Lemma str_take_prefix (n : nat) (s : string) :
  ∃ rest, s = (str_take n s +:+ rest)%string.
Proof.
  revert s. induction n as [|n IH]; intros [|c s]; simpl; eauto.
  destruct (IH s) as [rest Hrest]. exists rest.
  change (String c s = String c (str_take n s +:+ rest)). by f_equal.
Qed.

(** [split] never returns the empty list, and its first piece is the part
    of the string before the first separator. *)
Lemma split_head (sep : ascii) (s : string) :
  ∃ p ps, split sep s = p :: ps ∧
    (∀ c, c ∈ String.list_ascii_of_string p → c ≠ sep) ∧
    (s = p ∨ ∃ rest, s = (p +:+ String sep rest)%string).
Proof.
  induction s as [|c s (p & ps & Hsplit & Hfree & Hs)]; simpl.
  - exists EmptyString, []. split_and!; [done | | by left].
    intros c Hc. by apply elem_of_nil in Hc.
  - destruct (Ascii.eqb_spec c sep) as [->|Hne].
    + exists EmptyString, (split sep s). split_and!; [done | |].
      * intros c Hc. by apply elem_of_nil in Hc.
      * right. by exists s.
    + rewrite Hsplit. exists (String c p), ps. split_and!; [done | |].
      * intros c' Hc'. simpl in Hc'. apply elem_of_cons in Hc' as [->|Hc'];
          [done | by apply Hfree].
      * destruct Hs as [->|[rest ->]]; [by left|]. right. by exists rest.
Qed.

Lemma local_part_correct (sender : string) :
  Spec.is_local_part sender (default EmptyString (head (split "@" sender))).
Proof.
  destruct (split_head "@" sender) as (p & ps & -> & Hfree & Hs). simpl.
  split; [done|]. destruct Hs as [Hs|[rest Hs]]; [by left|].
  right. by exists rest.
Qed.

(** C6. The composite text is made of the subject line (omitted for an empty
    subject), the sender line (the display name when it is not empty, else
    the local part of the address when that is not empty, else omitted) and
    the content line with the first 1500 characters of the content (omitted
    for an empty content), in this order, joined by newlines. *)
Theorem prepare_email_text_correct
    (subject sender content sender_name : string) :
  ∃ local, Spec.is_local_part sender local ∧
    _prepare_email_text subject sender content sender_name
    = Spec.join_lines [Spec.subject_line subject;
                       Spec.from_line sender_name sender local;
                       Spec.content_line content].
Proof.
  exists (default EmptyString (head (split "@" sender))).
  split; [apply local_part_correct|].
  unfold _prepare_email_text, Spec.join_lines, Spec.subject_line,
    Spec.from_line, Spec.content_line.
  rewrite str_take_substring.
  generalize (String.substring 0 1500 content). intros truncated.
  generalize (default EmptyString (head (split "@" sender))). intros local.
  destruct subject, sender_name, sender, content; reflexivity.
Qed.

End Text.

(** ** The empty batch *)

(** C9. On the empty sequence [classify_batch] returns the empty sequence
    and leaves the world as it was: no call of the model is recorded, the
    model is not loaded and the registry is not initialized by this call. *)
Theorem classify_batch_empty `{SentenceTransformer}
    (format_2f : R → string) (batch_size : nat) (w : world) :
  classify_batch format_2f [] batch_size w = Some ([], w).
Proof. reflexivity. Qed.

(** ** Dicts *)

Section Dicts.

Context {V : Type}.
Implicit Types (d : dict V) (k : string) (v : V).

Lemma dict_set_keys k v d :
  map fst (dict_set k v d)
  = if decide (k ∈ map fst d) then map fst d else map fst d ++ [k].
Proof.
  induction d as [|[k' v'] d IH].
  - cbn [dict_set map fst].
    destruct (decide (k ∈ [])) as [Hin|_]; [by apply elem_of_nil in Hin | done].
  - cbn [dict_set]. destruct (decide (k' = k)) as [->|Hne].
    + cbn [map fst]. rewrite decide_True; [done | by left].
    + cbn [map fst]. rewrite IH.
      destruct (decide (k ∈ map fst d)) as [Hin|Hnin].
      * rewrite decide_True; [done | by right].
      * rewrite decide_False; [done|].
        intros [?|?]%elem_of_cons; congruence.
Qed.

Lemma dict_set_fresh k v d : k ∉ map fst d → dict_set k v d = d ++ [(k, v)].
Proof.
  induction d as [|[k' v'] d IH]; simpl; [done|]. intros Hnin.
  apply not_elem_of_cons in Hnin as [Hne Hnin].
  rewrite decide_False by done. by rewrite IH.
Qed.

Lemma dict_set_NoDup k v d :
  NoDup (map fst d) → NoDup (map fst (dict_set k v d)).
Proof.
  intros Hnd. rewrite dict_set_keys. case_decide; [done|].
  apply NoDup_app. split_and!; [done | | apply NoDup_singleton].
  intros x Hx ->%list_elem_of_singleton. done.
Qed.

Lemma dict_get_elem_of k v d :
  NoDup (map fst d) → dict_get k d = Some v ↔ (k, v) ∈ d.
Proof.
  induction d as [|[k' v'] d IH]; simpl; intros Hnd.
  - split; [done | by intros ?%elem_of_nil].
  - apply NoDup_cons in Hnd as [Hnin Hnd].
    destruct (decide (k' = k)) as [->|Hne].
    + split.
      * intros [= ->]. by left.
      * intros [[= ->]|Hin]%elem_of_cons; [done|].
        destruct Hnin. apply list_elem_of_fmap. by exists (k, v).
    + rewrite IH by done. split.
      * by right.
      * intros [[= -> ->]|Hin]%elem_of_cons; done.
Qed.

Lemma dict_get_key k v d : dict_get k d = Some v → k ∈ map fst d.
Proof.
  induction d as [|[k' v'] d IH]; simpl; [done|].
  destruct (decide (k' = k)) as [->|Hne]; [by left | right; auto].
Qed.

End Dicts.

(** ** Scoring *)

Section Scoring.

Local Open Scope R_scope.

Lemma score_categories_NoDup (v : vec) (items : dict vec) (acc sims : dict R) :
  score_categories v items acc = Some sims →
  NoDup (map fst acc) → NoDup (map fst sims).
Proof.
  revert acc. induction items as [|[k e] items IH]; intros acc; simpl.
  - by intros [= ->].
  - destruct (cosine_similarity v e) as [s|]; [|done].
    intros Hs Hnd. eapply IH; [done|]. by apply dict_set_NoDup.
Qed.

Lemma score_categories_keys (v : vec) (items : dict vec) (acc sims : dict R) :
  score_categories v items acc = Some sims →
  ∀ k, k ∈ map fst sims ↔ k ∈ map fst acc ∨ k ∈ map fst items.
Proof.
  revert acc. induction items as [|[k e] items IH]; intros acc; simpl.
  - intros [= ->] k'. set_solver.
  - destruct (cosine_similarity v e) as [s|]; [|done].
    intros Hs k'. rewrite (IH _ Hs), dict_set_keys.
    case_decide; set_solver.
Qed.

(** With distinct keys in the registry, the similarities follow the
    registry item by item: same key, the cosine similarity as value. *)
Lemma score_categories_items (v : vec) (items : dict vec) (acc sims : dict R) :
  score_categories v items acc = Some sims →
  NoDup (map fst acc ++ map fst items) →
  ∃ sims', sims = acc ++ sims' ∧
    Forall2 (λ item sim, fst sim = fst item ∧
               cosine_similarity v (snd item) = Some (snd sim)) items sims'.
Proof.
  revert acc. induction items as [|[k e] items IH]; intros acc; simpl.
  - intros [= ->] _. exists []. by rewrite app_nil_r.
  - destruct (cosine_similarity v e) as [s|] eqn:Hcos; [|done].
    intros Hs Hnd. apply NoDup_app in Hnd as (Hacc & Hdisj & Hitems).
    apply NoDup_cons in Hitems as [Hk Hitems].
    assert (k ∉ map fst acc) as Hfresh.
    { intros Hin. apply (Hdisj k Hin). by left. }
    rewrite dict_set_fresh in Hs by done.
    destruct (IH _ Hs) as (sims' & -> & Hall).
    { rewrite map_app. simpl. rewrite <- app_assoc. simpl.
      apply NoDup_app. split_and!; [done | | by apply NoDup_cons].
      intros x Hx [->|Hin]%elem_of_cons; [done|].
      apply (Hdisj x Hx). by right. }
    exists ((k, s) :: sims'). rewrite <- app_assoc. split; [done|].
    by constructor.
Qed.

Lemma score_categories_same_keys (v : vec) (items : dict vec) (sims : dict R) :
  score_categories v items [] = Some sims → NoDup (map fst items) →
  map fst sims = map fst items.
Proof.
  intros Hs Hnd. destruct (score_categories_items _ _ _ _ Hs)
    as (sims' & -> & Hall); [done|]. simpl.
  apply list_eq_Forall2, Forall2_fmap, Forall2_flip.
  eapply Forall2_impl; [done|]. by intros item sim [-> _].
Qed.

End Scoring.

(** ** Selection of the best category *)

Section Selection.

Local Open Scope R_scope.

(** [fold_left max_step] returns the first item of maximal value. *)
Lemma fold_max_step_first_max (rest : dict R) (first : string * R) :
  ∃ i, (first :: rest) !! i = Some (fold_left max_step rest first) ∧
    ∀ j x, (first :: rest) !! j = Some x →
      snd x <= snd (fold_left max_step rest first) ∧
      ((j < i)%nat → snd x < snd (fold_left max_step rest first)).
Proof.
  induction rest as [|y rest IH] using rev_ind.
  - exists 0%nat. split; [done|]. intros [|j] x Hx; simplify_eq/=.
    split; [lra | lia].
  - destruct IH as (i & Hi & Hmax). rewrite fold_left_app. simpl.
    change (first :: rest ++ [y]) with ((first :: rest) ++ [y]).
    set (best := fold_left max_step rest first) in *.
    assert (i < length (first :: rest))%nat as Hlen by by eapply lookup_lt_Some.
    unfold max_step. destruct (Rlt_dec (snd best) (snd y)) as [Hlt|Hge].
    + exists (length (first :: rest)). split.
      { by rewrite (lookup_app_r (first :: rest)), Nat.sub_diag. }
      intros j x Hx.
      destruct (decide (j < length (first :: rest))%nat) as [Hj|Hj].
      * rewrite (lookup_app_l (first :: rest)) in Hx by done.
        destruct (Hmax j x Hx) as [Hle _]. split; [lra | intros _; lra].
      * rewrite (lookup_app_r (first :: rest)) in Hx by lia.
        destruct (j - length (first :: rest))%nat eqn:Hd; simplify_eq/=.
        split; [lra | lia].
    + exists i. split.
      { by rewrite (lookup_app_l (first :: rest)). }
      intros j x Hx.
      destruct (decide (j < length (first :: rest))%nat) as [Hj|Hj].
      * rewrite (lookup_app_l (first :: rest)) in Hx by done. by apply Hmax.
      * rewrite (lookup_app_r (first :: rest)) in Hx by lia.
        destruct (j - length (first :: rest))%nat eqn:Hd; simplify_eq/=.
        split; [lra | lia].
Qed.

Lemma max_key_first_max (sims : dict R) (c : string) :
  max_key sims = Some c →
  ∃ i s, sims !! i = Some (c, s) ∧
    ∀ j c' s', sims !! j = Some (c', s') →
      s' <= s ∧ ((j < i)%nat → s' < s).
Proof.
  destruct sims as [|first rest]; simpl; [done|]. intros [= <-].
  destruct (fold_max_step_first_max rest first) as (i & Hi & Hmax).
  destruct (fold_left max_step rest first) as [c s] eqn:Hbest.
  exists i, s. split; [done|]. intros j c' s' Hj. apply (Hmax j (c', s') Hj).
Qed.

Lemma max_key_is_Some (sims : dict R) : sims ≠ [] → is_Some (max_key sims).
Proof. destruct sims; [done | eauto]. Qed.

End Selection.

(** ** Labels *)

Section Labels.

Local Open Scope R_scope.

Lemma geb_true (x y : R) : Py.geb x y = true ↔ y <= x.
Proof. unfold Py.geb. destruct (Rle_dec y x); naive_solver. Qed.

Lemma elem_of_collect_labels (best : string) (items : dict R)
    (acc : list string) (x : string) :
  x ∈ collect_labels best items acc ↔
  x ∈ acc ∨ ∃ s, (x, s) ∈ items ∧ x ≠ best ∧ 40 <= s * 150.
Proof.
  revert acc. induction items as [|[c s] items IH]; intros acc; simpl.
  - split; [by left|]. intros [?|(s & Hin & _)]; [done|].
    by apply elem_of_nil in Hin.
  - destruct (bool_decide (c ≠ best) && Py.geb (s * 150) 40) eqn:Htest.
    + apply andb_true_iff in Htest as [Hne%bool_decide_eq_true Hge%geb_true].
      rewrite IH, elem_of_app, list_elem_of_singleton. split.
      * intros [[?| ->]|(s' & Hin & ?)]; [by left | |].
        -- right. exists s. split; [by left | done].
        -- right. exists s'. split; [by right | done].
      * intros [?|(s' & [[= -> ->]|Hin]%elem_of_cons & ?)]; eauto.
    + rewrite IH. split.
      * intros [?|(s' & Hin & ?)]; [by left|].
        right. exists s'. split; [by right | done].
      * intros [?|(s' & [[= -> ->]|Hin]%elem_of_cons & Hne & Hge)]; eauto.
        apply andb_false_iff in Htest as [Hf|Hf].
        -- by apply bool_decide_eq_false in Hf.
        -- apply geb_true in Hge. congruence.
Qed.

End Labels.

(** ** The two entry points as functions of the world *)

Section Unfolding.

Context {model : SentenceTransformer}.
Variable format_2f : R → string.

Lemma init_step (w : world) :
  (if _initialized (self w) then ret tt else initialize_category_embeddings) w
  = Some (tt, init_world w).
Proof.
  unfold init_world, initialize_category_embeddings.
  destruct (_initialized (self w)) eqn:Hinit; [done|].
  unfold bind, gets. by rewrite Hinit.
Qed.

Lemma init_world_initialized (w : world) :
  _initialized (self (init_world w)) = true.
Proof. unfold init_world. by destruct (_initialized (self w)) eqn:Hinit. Qed.

Lemma init_world_idem (w : world) : init_world (init_world w) = init_world w.
Proof.
  unfold init_world at 1. by rewrite init_world_initialized.
Qed.

Lemma classify_unfold (subject sender content sender_name : string)
    (w : world) :
  classify format_2f subject sender content sender_name w =
  let text := _prepare_email_text subject sender content sender_name in
  r ← classify_embedding format_2f
         (_category_embeddings (self (init_world w))) (encode text);
  Some (r, record_call (EncodeText text) (set_model_loaded (init_world w))).
Proof.
  unfold classify. unfold bind at 1. unfold gets at 1.
  unfold bind at 1. rewrite init_step.
  unfold get_embedding, bind, get_model, modify, gets, lift, ret. simpl.
  unfold classify_embedding, decide_result.
  destruct (score_categories _ _ _) as [sims|]; simpl; [|done].
  destruct (max_key sims) as [c|]; simpl; [|done].
  destruct (dict_get c sims) as [s|]; simpl; [|done].
  by destruct (to_confidence s <? 30)%Z.
Qed.

Lemma classify_embeddings_cons (items : dict vec) (v : vec)
    (vs : list vec) (results : list ClassificationResult) :
  classify_embeddings format_2f items (v :: vs) results
  = match classify_embedding format_2f items v with
    | Some r => classify_embeddings format_2f items vs (results ++ [r])
    | None => None
    end.
Proof.
  simpl. unfold classify_embedding, decide_result.
  destruct (score_categories v items []) as [sims|]; simpl; [|done].
  destruct (max_key sims) as [c|]; simpl; [|done].
  destruct (dict_get c sims) as [s|]; simpl; [|done].
  by destruct (to_confidence s <? 30)%Z.
Qed.

(** The loop of the batch classifies the embeddings one by one, in order,
    and stops at the first exception. *)
Lemma classify_embeddings_mapM (items : dict vec) (all_embeddings : list vec)
    (results : list ClassificationResult) :
  classify_embeddings format_2f items all_embeddings results
  = (results ++.) <$> mapM (classify_embedding format_2f items) all_embeddings.
Proof.
  revert results. induction all_embeddings as [|v vs IH]; intros results.
  - simpl. by rewrite app_nil_r.
  - rewrite classify_embeddings_cons. simpl.
    destruct (classify_embedding format_2f items v) as [r|]; simpl; [|done].
    rewrite IH. destruct (mapM _ vs); simpl; [|done].
    by rewrite <- app_assoc.
Qed.

Lemma classify_batch_unfold (email : gmap string string)
    (emails : list (gmap string string)) (batch_size : nat) (w : world) :
  classify_batch format_2f (email :: emails) batch_size w =
  let texts := map text_of_email (email :: emails) in
  rs ← mapM (classify_embedding format_2f
               (_category_embeddings (self (init_world w))))
            (encode_batch texts batch_size);
  Some (rs, record_call (EncodeTexts texts batch_size)
                        (set_model_loaded (init_world w))).
Proof.
  unfold classify_batch. unfold bind at 1. unfold gets at 1.
  unfold bind at 1. rewrite init_step.
  unfold get_embeddings_batch, bind, get_model, modify, gets, lift, ret.
  simpl. rewrite classify_embeddings_mapM.
  fold (text_of_email email). change (map _ emails) with (map text_of_email emails).
  by destruct (mapM _ _).
Qed.

End Unfolding.

(** ** What a result says about its message *)

Section Results.

Context {model : SentenceTransformer}.
Variable format_2f : R → string.

Local Open Scope R_scope.

Lemma self_after_call (c : encode_call) (w : world) :
  self (record_call c (set_model_loaded w)) = self w.
Proof. reflexivity. Qed.

(** Both entry points classify a message by [classify_embedding]. *)
Lemma classified_embedding (items : dict vec) (v : vec)
    (r : ClassificationResult) :
  classified format_2f items v r →
  classify_embedding format_2f items v = Some r.
Proof.
  intros [subject sender content sender_name w r' w' Hc
         |emails batch_size w rs w' i r' v' Hc Hr Hv].
  - rewrite classify_unfold in Hc. simpl in Hc.
    destruct (classify_embedding _ _ _) as [r0|] eqn:Hr0; simplify_eq/=.
    done.
  - destruct emails as [|email emails].
    { unfold classify_batch, ret in Hc. simplify_eq. }
    rewrite classify_batch_unfold in Hc. cbv zeta in Hc.
    destruct (mapM _ _) as [rs0|] eqn:Hrs; simplify_eq/=.
    apply mapM_Some in Hrs.
    by destruct (Forall2_lookup_lr _ _ _ _ _ _ Hrs Hv Hr).
Qed.

Lemma decide_result_inv (sims : dict R) (r : ClassificationResult) :
  decide_result format_2f sims = Some r →
  ∃ c s, max_key sims = Some c ∧ dict_get c sims = Some s ∧
    category r = (if (to_confidence s <? 30)%Z then "primary"%string else c) ∧
    confidence r = (if (to_confidence s <? 30)%Z then 50%Z
                    else to_confidence s) ∧
    labels r = list_to_set (collect_labels (category r) sims [category r]) ∧
    reason r = build_reason format_2f sims.
Proof.
  unfold decide_result. intros Hr.
  destruct (max_key sims) as [c|]; simplify_eq/=.
  destruct (dict_get c sims) as [s|] eqn:Hget; simplify_eq/=.
  by exists c, s.
Qed.

(** A result comes with the similarities of its message and the decision
    taken on them. *)
Lemma classified_inv (items : dict vec) (v : vec) (r : ClassificationResult) :
  classified format_2f items v r →
  ∃ sims, score_categories v items [] = Some sims ∧
          NoDup (map fst sims) ∧
          decide_result format_2f sims = Some r.
Proof.
  intros Hc%classified_embedding. unfold classify_embedding in Hc.
  destruct (score_categories v items []) as [sims|] eqn:Hs; simplify_eq/=.
  exists sims. split_and!; [done | | done].
  eapply score_categories_NoDup; [done | constructor].
Qed.

Lemma confidence_in_30_95 (sims : dict R) (r : ClassificationResult) :
  decide_result format_2f sims = Some r → (30 ≤ confidence r ≤ 95)%Z.
Proof.
  intros (c & s & _ & _ & _ & -> & _)%decide_result_inv.
  pose proof (to_confidence_range s).
  destruct (Z.ltb_spec (to_confidence s) 30); lia.
Qed.

(** C10. Every result of [classify] or [classify_batch] has a confidence
    between 30 and 95: below 30 the fallback puts 50, and the conversion
    never exceeds 95. *)
Theorem confidence_between_30_and_95 (items : dict vec) (v : vec)
    (r : ClassificationResult) :
  classified format_2f items v r → (30 ≤ confidence r ≤ 95)%Z.
Proof.
  intros (sims & _ & _ & Hr)%classified_inv.
  by eapply confidence_in_30_95.
Qed.

(** C4. With [s] the best similarity of the message (the value of the key
    that [max] selects): when the converted confidence is below 30 the
    result is exactly category "primary" with confidence 50; otherwise the
    selected category and the converted confidence are kept. *)
Theorem fallback_policy (items : dict vec) (v : vec)
    (r : ClassificationResult) :
  classified format_2f items v r →
  ∃ sims c s,
    score_categories v items [] = Some sims ∧
    max_key sims = Some c ∧ dict_get c sims = Some s ∧
    ((to_confidence s < 30)%Z →
       category r = "primary"%string ∧ confidence r = 50%Z) ∧
    ((30 ≤ to_confidence s)%Z →
       category r = c ∧ confidence r = to_confidence s).
Proof.
  intros (sims & Hs & _ & Hr)%classified_inv.
  destruct (decide_result_inv _ _ Hr) as (c & s & Hc & Hget & Hcat & Hconf & _).
  exists sims, c, s. split_and!; try done.
  - intros Hlt. apply Z.ltb_lt in Hlt. by rewrite Hlt in Hcat, Hconf.
  - intros Hge. apply Z.ltb_ge in Hge. by rewrite Hge in Hcat, Hconf.
Qed.

(** C8. The labels of a result are its category and, besides it, exactly
    the scored categories other than it whose similarity times 150 is at
    least 40. *)
Theorem labels_exactly (items : dict vec) (v : vec)
    (r : ClassificationResult) :
  classified format_2f items v r →
  ∃ sims, score_categories v items [] = Some sims ∧
    ∀ c, c ∈ labels r ↔
         c = category r ∨
         (c ≠ category r ∧ ∃ s, dict_get c sims = Some s ∧ 40 <= s * 150).
Proof.
  intros (sims & Hs & Hnd & Hr)%classified_inv. exists sims. split; [done|].
  destruct (decide_result_inv _ _ Hr) as (_ & _ & _ & _ & _ & _ & -> & _).
  intros c. rewrite elem_of_list_to_set, elem_of_collect_labels.
  rewrite list_elem_of_singleton. split.
  - intros [->|(s & Hin & Hne & Hge)]; [by left|]. right. split; [done|].
    exists s. by rewrite dict_get_elem_of.
  - intros [->|(Hne & s & Hget & Hge)]; [by left|]. right.
    exists s. by rewrite <- dict_get_elem_of.
Qed.

Lemma primary_not_scored : "primary"%string ∉ Spec.taxonomy.
Proof. apply (bool_decide_unpack _). by vm_compute. Qed.

Lemma taxonomy_NoDup : NoDup Spec.taxonomy.
Proof. apply (bool_decide_unpack _). by vm_compute. Qed.

Lemma elem_of_category_names (c : string) :
  c ∈ Spec.category_names ↔ c = "primary"%string ∨ c ∈ Spec.taxonomy.
Proof.
  unfold Spec.category_names. by rewrite elem_of_list_to_set, elem_of_cons.
Qed.

(** C2. Every result has a confidence between 0 and 100, a set of labels
    that is not empty and holds its category, and, the registry holding
    scored categories only, no label outside the closed set of category
    names. *)
Theorem result_invariant (items : dict vec) (v : vec)
    (r : ClassificationResult) :
  classified format_2f items v r →
  Forall (λ k, k ∈ Spec.taxonomy) (map fst items) →
  (0 ≤ confidence r ≤ 100)%Z ∧
  labels r ≠ ∅ ∧
  category r ∈ labels r ∧
  labels r ⊆ Spec.category_names.
Proof.
  intros (sims & Hs & Hnd & Hr)%classified_inv Hitems.
  pose proof (confidence_in_30_95 _ _ Hr) as Hconf.
  destruct (decide_result_inv _ _ Hr)
    as (c & s & Hc & Hget & Hcat & _ & Hlabels & _).
  assert (category r ∈ labels r) as Hin.
  { rewrite Hlabels, elem_of_list_to_set, elem_of_collect_labels.
    left. by apply list_elem_of_singleton. }
  assert (∀ k, k ∈ map fst sims → k ∈ Spec.category_names) as Hkeys.
  { intros k Hk. apply elem_of_category_names. right.
    apply (score_categories_keys _ _ _ _ Hs) in Hk as [Hk|Hk];
      [by apply elem_of_nil in Hk|].
    by eapply Forall_forall in Hitems. }
  split_and!; [lia | lia | set_solver | done |].
  intros x. rewrite Hlabels, elem_of_list_to_set, elem_of_collect_labels.
  rewrite list_elem_of_singleton. intros [->|(s' & Hx & _)].
  - rewrite Hcat. destruct (to_confidence s <? 30)%Z.
    + apply elem_of_category_names. by left.
    + apply Hkeys. by eapply dict_get_key.
  - apply Hkeys. apply list_elem_of_fmap. by exists (x, s').
Qed.

(** C7. With the seven categories in the registry, the category selected
    for a message is the first one, in the taxonomy order, whose cosine
    similarity with the message is maximal; "primary" is not scored. The
    result carries this category, or "primary" when the fallback applies. *)
Theorem selection_first_maximum (items : dict vec) (v : vec)
    (r : ClassificationResult) :
  classified format_2f items v r →
  map fst items = Spec.taxonomy →
  ∃ i c e s,
    Spec.taxonomy !! i = Some c ∧ items !! i = Some (c, e) ∧
    cosine_similarity v e = Some s ∧
    (∀ j c' e', items !! j = Some (c', e') →
       ∃ s', cosine_similarity v e' = Some s' ∧ s' <= s ∧
             ((j < i)%nat → s' < s)) ∧
    c ≠ "primary"%string ∧ ("primary"%string ∉ map fst items) ∧
    (category r = c ∨
     (category r = "primary"%string ∧ (to_confidence s < 30)%Z)).
Proof.
  intros (sims & Hs & Hnd & Hr)%classified_inv Hitems.
  destruct (score_categories_items _ _ _ _ Hs) as (sims' & Heq & Hall).
  { simpl. rewrite Hitems. apply taxonomy_NoDup. }
  simpl in Heq. subst sims'.
  destruct (decide_result_inv _ _ Hr) as (c & s & Hc & Hget & Hcat & _).
  destruct (max_key_first_max _ _ Hc) as (i & s0 & Hi & Hmax).
  assert (s0 = s) as ->.
  { apply list_elem_of_lookup_2 in Hi. apply dict_get_elem_of in Hi; [|done].
    congruence. }
  destruct (Forall2_lookup_r _ _ _ _ _ Hall Hi) as ([c0 e] & Hitem & Hk & Hcos).
  simpl in Hk, Hcos. subst c0.
  assert (Spec.taxonomy !! i = Some c) as Htax.
  { by rewrite <- Hitems, list_lookup_fmap, Hitem. }
  exists i, c, e, s. split_and!; try done.
  - intros j c' e' Hj.
    destruct (Forall2_lookup_l _ _ _ _ _ Hall Hj) as ([c1 s'] & Hsim & _ & Hcos').
    exists s'. split; [done|]. by apply (Hmax j c1).
  - intros ->. apply primary_not_scored. by eapply list_elem_of_lookup_2.
  - rewrite Hitems. apply primary_not_scored.
  - rewrite Hcat. destruct (Z.ltb_spec (to_confidence s) 30); [right | left]; done.
Qed.

End Results.

(** ** Batch and single classification *)

Section Equivalence.

Context {model : SentenceTransformer}.
Variable format_2f : R → string.

(** [classify] on the four fields of a message of a batch. *)
Lemma classify_email_unfold (email : gmap string string) (w : world) :
  classify format_2f (get_or_empty email "subject")
                     (get_or_empty email "sender")
                     (get_or_empty email "content")
                     (get_or_empty email "sender_name") w
  = r ← classify_embedding format_2f
           (_category_embeddings (self (init_world w)))
           (encode (text_of_email email));
    Some (r, record_call (EncodeText (text_of_email email))
                         (set_model_loaded (init_world w))).
Proof. by rewrite classify_unfold. Qed.

(** X21. With a provider whose batch call embeds each text as its single
    call does: when every message of a batch can be classified alone from a
    world, the batch can be classified from that world, it does not
    raise. *)
Lemma classify_batch_total (emails : list (gmap string string))
    (batch_size : nat) (w : world) :
  batch_is_map model →
  Forall (λ email,
            is_Some (classify format_2f (get_or_empty email "subject")
                                        (get_or_empty email "sender")
                                        (get_or_empty email "content")
                                        (get_or_empty email "sender_name") w))
         emails →
  is_Some (classify_batch format_2f emails batch_size w).
Proof.
  intros Hmap Hall. destruct emails as [|email emails]; [by eexists|].
  rewrite classify_batch_unfold. cbv zeta. rewrite Hmap.
  destruct (mapM _ _) as [rs|] eqn:Hrs; [by eexists|].
  apply mapM_None in Hrs. apply Exists_exists in Hrs as (v & Hv & Hnone).
  apply list_elem_of_fmap in Hv as (text & -> & Htext).
  apply list_elem_of_fmap in Htext as (e & -> & He).
  eapply Forall_forall in Hall; [|done].
  rewrite classify_email_unfold, Hnone in Hall. by destruct Hall.
Qed.

(** C1. Given a provider whose batch call embeds each text as its single
    call does, [classify_batch] returns one result per message, in order,
    and its result at index [i] is the result of [classify] on the fields of
    the message at index [i], both started in the same world: the same
    category, confidence, labels and reason (similarities being exact
    numbers here, the results are equal). *)
Theorem classify_batch_is_classify (emails : list (gmap string string))
    (batch_size : nat) (w w' : world) (rs : list ClassificationResult) :
  batch_is_map model →
  classify_batch format_2f emails batch_size w = Some (rs, w') →
  length rs = length emails ∧
  ∀ i email, emails !! i = Some email →
    ∃ r w'', rs !! i = Some r ∧
      classify format_2f (get_or_empty email "subject")
                         (get_or_empty email "sender")
                         (get_or_empty email "content")
                         (get_or_empty email "sender_name") w
      = Some (r, w'').
Proof.
  intros Hmap Hbatch. destruct emails as [|email0 emails].
  { unfold classify_batch, ret in Hbatch. simplify_eq. split; [done|].
    intros i email Hi. by rewrite lookup_nil in Hi. }
  rewrite classify_batch_unfold in Hbatch. cbv zeta in Hbatch.
  rewrite Hmap in Hbatch.
  destruct (mapM _ _) as [rs0|] eqn:Hrs; [|done].
  injection Hbatch as -> <-. apply mapM_Some in Hrs. split.
  { apply Forall2_length in Hrs. simpl in Hrs.
    by rewrite !length_map in Hrs. }
  intros i email Hi.
  assert ((encode (text_of_email email0)
           :: map encode (map text_of_email emails)) !! i
          = Some (encode (text_of_email email))) as Hv.
  { change (map encode (map text_of_email (email0 :: emails)) !! i
            = Some (encode (text_of_email email))).
    by rewrite !list_lookup_fmap, Hi. }
  destruct (Forall2_lookup_l _ _ _ _ _ Hrs Hv) as (r & Hr & Hclass).
  exists r. eexists. split; [done|].
  rewrite classify_email_unfold, Hclass. reflexivity.
Qed.

End Equivalence.

(** ** Evaluating the engine on given numbers *)

Section Evaluation.

Local Open Scope R_scope.

Lemma sqrt_of_square (x y : R) : 0 <= y → y * y = x → sqrt x = y.
Proof. intros Hy <-. by apply sqrt_square. Qed.

Lemma cosine_eval (a b : vec) (d na nb q : R) :
  np.dot a b = Some d →
  0 < na → na * na = np.sumsq a → 0 < nb → nb * nb = np.sumsq b →
  d = q * (na * nb) →
  cosine_similarity a b = Some q.
Proof.
  intros Hd Hna Ha Hnb Hb Hq.
  assert (np.linalg_norm a = na) as Hna' by (apply sqrt_of_square; lra).
  assert (np.linalg_norm b = nb) as Hnb' by (apply sqrt_of_square; lra).
  rewrite (cosine_nonzero a b d Hd); rewrite ?Hna', ?Hnb'; try lra.
  f_equal. rewrite Hq. field. lra.
Qed.

Lemma cosine_eval_zero (a b : vec) (d : R) :
  np.dot a b = Some d → np.sumsq a = 0 ∨ np.sumsq b = 0 →
  cosine_similarity a b = Some 0.
Proof.
  intros Hd Hz. apply (cosine_zero a b d Hd). unfold np.linalg_norm.
  destruct Hz as [->| ->]; rewrite sqrt_0; auto.
Qed.

(** The converse of [score_categories_items]. *)
Lemma score_categories_eval (v : vec) (items : dict vec) (sims : dict R) :
  NoDup (map fst items) →
  Forall2 (λ item sim, fst sim = fst item ∧
             cosine_similarity v (snd item) = Some (snd sim)) items sims →
  score_categories v items [] = Some sims.
Proof.
  intros Hnd Hall.
  enough (∀ acc, NoDup (map fst acc ++ map fst items) →
            score_categories v items acc = Some (acc ++ sims)) as Hgen.
  { by apply (Hgen []). }
  clear Hnd. induction Hall as [|[k e] [k' s] items sims [Hk Hcos] _ IH];
    intros acc Hnd; simpl in *.
  - by rewrite app_nil_r.
  - subst k'. rewrite Hcos.
    apply NoDup_app in Hnd as (Hacc & Hdisj & Hitems).
    apply NoDup_cons in Hitems as [Hk Hitems].
    assert (k ∉ map fst acc) as Hfresh.
    { intros Hin. apply (Hdisj k Hin). by left. }
    rewrite dict_set_fresh by done.
    rewrite IH.
    + by rewrite <- app_assoc.
    + rewrite map_app. simpl. rewrite <- app_assoc. simpl.
      apply NoDup_app. split_and!; [done | | by apply NoDup_cons].
      intros x Hx [->|Hin]%elem_of_cons; [done|].
      apply (Hdisj x Hx). by right.
Qed.

Lemma max_step_lt (best item : string * R) :
  snd best < snd item → max_step best item = item.
Proof. intros Hlt. unfold max_step. by destruct (Rlt_dec _ _). Qed.

Lemma max_step_ge (best item : string * R) :
  snd item <= snd best → max_step best item = best.
Proof. intros Hge. unfold max_step. destruct (Rlt_dec _ _); [lra | done]. Qed.

Lemma collect_labels_keep (best c : string) (s : R) (items : dict R)
    (acc : list string) :
  c ≠ best → 40 <= s * 150 →
  collect_labels best ((c, s) :: items) acc
  = collect_labels best items (acc ++ [c]).
Proof.
  intros Hne Hge. simpl. rewrite bool_decide_eq_true_2 by done.
  apply geb_true in Hge. by rewrite Hge.
Qed.

Lemma collect_labels_skip (best c : string) (s : R) (items : dict R)
    (acc : list string) :
  c = best ∨ s * 150 < 40 →
  collect_labels best ((c, s) :: items) acc = collect_labels best items acc.
Proof.
  intros Hskip. simpl. destruct Hskip as [->|Hlt].
  - by rewrite bool_decide_eq_false_2 by naive_solver.
  - destruct (Py.geb (s * 150) 40) eqn:Hge.
    + apply geb_true in Hge. lra.
    + by rewrite andb_false_r.
Qed.

Lemma insert_desc_here (x y : string * R) (l : list (string * R)) :
  snd y < snd x → insert_desc x (y :: l) = x :: y :: l.
Proof. intros Hlt. simpl. by destruct (Rlt_dec _ _). Qed.

Lemma insert_desc_later (x y : string * R) (l : list (string * R)) :
  snd x <= snd y → insert_desc x (y :: l) = y :: insert_desc x l.
Proof. intros Hge. simpl. destruct (Rlt_dec _ _); [lra | done]. Qed.

Lemma to_confidence_top (s : R) : 95 <= s * 150 → to_confidence s = 95%Z.
Proof.
  intros Hs. rewrite to_confidence_floor. unfold Rmin, Rmax.
  destruct (Rle_dec 0 (s * 150)); [|lra].
  destruct (Rle_dec 95 (s * 150)); [|lra]. apply ZfloorZ.
Qed.

Lemma to_confidence_bottom (s : R) : s * 150 <= 0 → to_confidence s = 0%Z.
Proof.
  intros Hs. rewrite to_confidence_floor. unfold Rmin, Rmax.
  destruct (Rle_dec 0 (s * 150)); destruct (Rle_dec 95 _); try lra.
  - replace (s * 150) with 0 by lra. apply ZfloorZ.
  - apply ZfloorZ.
Qed.

Lemma toy_format_nonneg (x : R) : 0 <= x → Toy.format x = "+"%string.
Proof. intros Hx. unfold Toy.format. destruct (Rlt_dec x 0); [lra | done]. Qed.

End Evaluation.

Ltac eval_max :=
  unfold max_key; cbn [fold_left];
  repeat match goal with
  | |- context [max_step (?k, ?v) (?k', ?v')] =>
      first [ rewrite (max_step_lt (k, v) (k', v')) by (simpl; lra)
            | rewrite (max_step_ge (k, v) (k', v')) by (simpl; lra) ]
  end.

Ltac eval_labels :=
  repeat first
    [ rewrite collect_labels_keep by (first [done | lra])
    | rewrite collect_labels_skip by (first [by left | right; lra]) ];
  cbn [collect_labels app].

Ltac eval_sorted :=
  unfold sorted_desc; cbn [fold_left];
  repeat match goal with
  | |- context [insert_desc (?k, ?v) ((?k', ?v') :: ?l)] =>
      first [ rewrite (insert_desc_here (k, v) (k', v') l) by (simpl; lra)
            | rewrite (insert_desc_later (k, v) (k', v') l) by (simpl; lra) ]
  | |- context [insert_desc ?x []] => change (insert_desc x []) with [x]
  end.

Ltac eval_reason :=
  unfold build_reason; eval_sorted; cbn [take map];
  rewrite !toy_format_nonneg by lra.

(** ** The engine on the small model *)

Section ToyRuns.

Local Open Scope R_scope.

Lemma toy_registry :
  _category_embeddings (self (@init_world Toy.model fresh_world))
  = Toy.registry.
Proof. reflexivity. Qed.

Lemma toy_scores_hi :
  score_categories [3; 4] Toy.registry [] = Some Toy.similarities_hi.
Proof.
  apply score_categories_eval; [apply taxonomy_NoDup|].
  unfold Toy.registry, Toy.similarities_hi. repeat constructor; simpl.
  all: first
    [ eapply (cosine_eval _ _ _ 5 1);
        [reflexivity | lra | simpl; lra | lra | simpl; lra | lra]
    | eapply (cosine_eval _ _ _ 5 5);
        [reflexivity | lra | simpl; lra | lra | simpl; lra | lra]
    | eapply cosine_eval_zero; [reflexivity | right; simpl; lra] ].
Qed.

Lemma toy_scores_empty :
  score_categories [0; 0] Toy.registry [] = Some Toy.similarities_empty.
Proof.
  apply score_categories_eval; [apply taxonomy_NoDup|].
  unfold Toy.registry, Toy.similarities_empty. repeat constructor; simpl.
  all: eapply cosine_eval_zero; [reflexivity | left; simpl; lra].
Qed.

Lemma toy_classify_hi :
  @classify_embedding Toy.format Toy.registry [3; 4] = Some Toy.result_hi.
Proof.
  unfold classify_embedding. rewrite toy_scores_hi. simpl.
  unfold decide_result, Toy.similarities_hi.
  eval_max. cbn [fst mbind option_bind].
  change (dict_get "social" _) with (Some 1). cbn [mbind option_bind].
  rewrite (to_confidence_top 1) by lra. cbn [Z.ltb Z.compare Pos.compare Pos.compare_cont].
  eval_labels. eval_reason. reflexivity.
Qed.

Lemma toy_classify_empty :
  @classify_embedding Toy.format Toy.registry [0; 0] = Some Toy.result_empty.
Proof.
  unfold classify_embedding. rewrite toy_scores_empty. simpl.
  unfold decide_result, Toy.similarities_empty.
  eval_max. cbn [fst mbind option_bind].
  change (dict_get "work" _) with (Some 0). cbn [mbind option_bind].
  rewrite (to_confidence_bottom 0) by lra.
  cbn [Z.ltb Z.compare Pos.compare Pos.compare_cont].
  eval_labels. eval_reason. reflexivity.
Qed.

(** [classify] on the message "Hi", at process start. *)
Lemma toy_single_hi :
  @classify Toy.model Toy.format "Hi" "" "" "" fresh_world
  = Some (Toy.result_hi,
          record_call (EncodeText "Subject: Hi")
                      (set_model_loaded (@init_world Toy.model fresh_world))).
Proof.
  rewrite classify_unfold. cbv zeta. rewrite toy_registry.
  change (encode (_prepare_email_text "Hi" "" "" "")) with [3; 4].
  by rewrite toy_classify_hi.
Qed.

(** [classify_batch] on the two messages, at process start. *)
Lemma toy_batch :
  @classify_batch Toy.model Toy.format [Toy.email_hi; Toy.email_empty] 64
                  fresh_world
  = Some ([Toy.result_hi; Toy.result_empty],
          record_call (EncodeTexts ["Subject: Hi"; ""]%string 64)
                      (set_model_loaded (@init_world Toy.model fresh_world))).
Proof.
  rewrite classify_batch_unfold. cbv zeta. rewrite toy_registry.
  change (encode_batch _ 64) with [[3; 4]; [0; 0]].
  cbn [mapM]. rewrite toy_classify_hi, toy_classify_empty. reflexivity.
Qed.

Lemma toy_classified_hi :
  @classified Toy.model Toy.format Toy.registry [3; 4] Toy.result_hi.
Proof. exact (classified_single _ _ _ _ _ _ _ _ toy_single_hi). Qed.

Lemma toy_classified_empty :
  @classified Toy.model Toy.format Toy.registry [0; 0] Toy.result_empty.
Proof.
  exact (classified_batch _ _ _ _ _ _ 1%nat _ [0; 0] toy_batch
           eq_refl eq_refl).
Qed.

End ToyRuns.

(** ** The registry after initialization, and totality *)

Section Registry.

Context {model : SentenceTransformer}.
Variable format_2f : R → string.

Lemma store_embeddings_keys (pairs : list (string * vec)) (d : dict vec)
    (k : string) :
  k ∈ map fst (store_embeddings pairs d) ↔
  k ∈ map fst d ∨ k ∈ map fst pairs.
Proof.
  revert d. induction pairs as [|[c e] pairs IH]; intros d; simpl.
  - set_solver.
  - rewrite IH, dict_set_keys. case_decide; set_solver.
Qed.

Lemma zip_keys_subset (names : list string) (embeddings : list vec)
    (k : string) :
  k ∈ map fst (zip names embeddings) → k ∈ names.
Proof.
  revert embeddings. induction names as [|c names IH];
    intros [|e embeddings]; simpl; try by intros ?%elem_of_nil.
  intros [->|Hin]%elem_of_cons; [by left | right; eauto].
Qed.

Lemma category_names_taxonomy : map fst CATEGORY_DESCRIPTIONS = Spec.taxonomy.
Proof. reflexivity. Qed.

Lemma init_world_registry (w : world) :
  _initialized (self w) = false →
  _category_embeddings (self (init_world w))
  = store_embeddings
      (zip (map fst CATEGORY_DESCRIPTIONS) (encode_batch category_texts 32))
      (_category_embeddings (self w)).
Proof. unfold init_world. by intros ->. Qed.

Lemma init_world_same (w : world) :
  _initialized (self w) = true → init_world w = w.
Proof. unfold init_world. by intros ->. Qed.

(** Initialization keeps the registry within the scored categories. *)
Lemma init_world_registry_ok (w : world) :
  registry_ok (self w) → registry_ok (self (init_world w)).
Proof.
  unfold registry_ok. intros Hok.
  destruct (_initialized (self w)) eqn:Hinit.
  { by rewrite init_world_same. }
  rewrite init_world_registry by done.
  apply Forall_forall. intros k Hk.
  apply store_embeddings_keys in Hk as [Hk|Hk].
  - by eapply Forall_forall in Hok.
  - by apply zip_keys_subset in Hk.
Qed.

Lemma registry_ok_new : registry_ok __init__.
Proof. constructor. Qed.

(** From a new classifier, with one embedding per category text, the
    registry holds the seven categories in the taxonomy order. *)
Lemma init_world_ready (w : world) :
  self w = __init__ →
  (∀ texts batch_size,
     length (encode_batch texts batch_size) = length texts) →
  registry_ready (self (init_world w)).
Proof.
  intros Hself Hlen. unfold registry_ready.
  rewrite init_world_registry by by rewrite Hself.
  rewrite Hself. specialize (Hlen category_texts 32%nat).
  destruct (encode_batch category_texts 32)
    as [|e1 [|e2 [|e3 [|e4 [|e5 [|e6 [|e7 [|]]]]]]]]; try discriminate Hlen.
  reflexivity.
Qed.

Lemma registry_ready_ok (c : SemanticEmailClassifier) :
  registry_ready c → registry_ok c.
Proof.
  unfold registry_ready, registry_ok. intros ->. by apply Forall_forall.
Qed.

(** The calls leave the classifier as initialization made it. *)
Lemma classify_self (subject sender content sender_name : string)
    (w w' : world) (r : ClassificationResult) :
  classify format_2f subject sender content sender_name w = Some (r, w') →
  self w' = self (init_world w).
Proof.
  rewrite classify_unfold. cbv zeta.
  destruct (classify_embedding _ _ _); intros; by simplify_eq/=.
Qed.

Lemma classify_batch_self (emails : list (gmap string string))
    (batch_size : nat) (w w' : world) (rs : list ClassificationResult) :
  classify_batch format_2f emails batch_size w = Some (rs, w') →
  self w' = self w ∨ self w' = self (init_world w).
Proof.
  destruct emails as [|email emails].
  - unfold classify_batch, ret. intros; simplify_eq. by left.
  - rewrite classify_batch_unfold. cbv zeta.
    destruct (mapM _ _); intros; simplify_eq/=. by right.
Qed.

Lemma dict_get_is_Some {V : Type} (k : string) (d : dict V) :
  k ∈ map fst d → is_Some (dict_get k d).
Proof.
  induction d as [|[k' v'] d IH]; simpl; [by intros ?%elem_of_nil|].
  intros Hin. destruct (decide (k' = k)) as [->|Hne]; [by eexists|].
  apply IH. by apply elem_of_cons in Hin as [<-|Hin].
Qed.

Lemma score_categories_total (v : vec) (items : dict vec) (acc : dict R) :
  Forall (λ item, length (snd item) = length v) items →
  is_Some (score_categories v items acc).
Proof.
  revert acc. induction items as [|[k e] items IH]; intros acc Hall; simpl.
  - by eexists.
  - apply Forall_cons in Hall as [Hlen Hall]. simpl in Hlen.
    destruct (dot_defined_iff v e) as [_ [d Hd]]; [done|].
    unfold cosine_similarity. rewrite Hd.
    destruct (_ || _); by apply IH.
Qed.

(** Scoring and decision succeed on a registry that is not empty and whose
    embeddings have the dimension of the message. *)
Lemma classify_embedding_total (items : dict vec) (v : vec) :
  items ≠ [] →
  Forall (λ item, length (snd item) = length v) items →
  is_Some (classify_embedding format_2f items v).
Proof.
  intros Hne Hall. unfold classify_embedding.
  destruct (score_categories_total v items [] Hall) as [sims Hs].
  rewrite Hs. simpl. unfold decide_result.
  assert (sims ≠ []) as Hsims.
  { destruct items as [|[k e] items]; [done|]. intros ->.
    assert (k ∈ map fst (@nil (string * R))) as Hk; [|by apply elem_of_nil in Hk].
    apply (score_categories_keys _ _ _ _ Hs). right. by left. }
  destruct (max_key_is_Some sims Hsims) as [c Hc]. rewrite Hc. simpl.
  destruct (max_key_first_max _ _ Hc) as (i & s & Hi & _).
  destruct (dict_get_is_Some c sims) as [s' Hs'].
  { apply list_elem_of_fmap. exists (c, s). split; [done|].
    by eapply list_elem_of_lookup_2. }
  rewrite Hs'. simpl. by eexists.
Qed.

Lemma dict_set_Forall {V : Type} (P : string * V → Prop) (k : string)
    (v : V) (d : dict V) :
  (∀ k', P (k', v)) → Forall P d → Forall P (dict_set k v d).
Proof.
  intros Hv. induction 1 as [|[k' v'] d Hx Hd IH]; simpl.
  - by constructor.
  - destruct (decide (k' = k)); constructor; auto.
Qed.

Lemma store_embeddings_dim (D : nat) (pairs : list (string * vec))
    (d : dict vec) :
  Forall (λ item, length (snd item) = D) d →
  Forall (λ item, length (snd item) = D) pairs →
  Forall (λ item, length (snd item) = D) (store_embeddings pairs d).
Proof.
  intros Hd Hpairs. revert d Hd.
  induction Hpairs as [|[k e] pairs He _ IH]; intros d Hd; simpl; [done|].
  apply IH. by apply dict_set_Forall.
Qed.

(** X20. With a provider of a fixed dimension that returns one embedding
    per text, [classify] on a new classifier returns a result for every
    message: it does not raise. *)
Lemma classify_total (D : nat)
    (subject sender content sender_name : string) (w : world) :
  self w = __init__ →
  (∀ text, length (encode text) = D) →
  (∀ texts batch_size,
     length (encode_batch texts batch_size) = length texts ∧
     Forall (λ e, length e = D) (encode_batch texts batch_size)) →
  is_Some (classify format_2f subject sender content sender_name w).
Proof.
  intros Hself Hone Hmany. rewrite classify_unfold. cbv zeta.
  destruct (classify_embedding_total
              (_category_embeddings (self (init_world w)))
              (encode (_prepare_email_text subject sender content sender_name)))
    as [r Hr].
  - pose proof (init_world_ready w Hself (λ t b, proj1 (Hmany t b))) as Hready.
    unfold registry_ready in Hready. intros Hnil. by rewrite Hnil in Hready.
  - rewrite Hone, init_world_registry by by rewrite Hself.
    rewrite Hself. destruct (Hmany category_texts 32%nat) as [_ Hdim].
    apply store_embeddings_dim; [constructor|].
    apply Forall_forall. intros [k e] He%elem_of_zip_r. simpl.
    by eapply Forall_forall in Hdim.
  - rewrite Hr. by eexists.
Qed.

End Registry.

(** ** The theorems on the small model *)

Section ToyInstances.

Local Open Scope R_scope.

Lemma toy_batch_is_map : batch_is_map Toy.model.
Proof. by intros texts batch_size. Qed.

Lemma toy_registry_keys : map fst Toy.registry = Spec.taxonomy.
Proof. reflexivity. Qed.

Lemma toy_registry_scored :
  Forall (λ k, k ∈ Spec.taxonomy) (map fst Toy.registry).
Proof. rewrite toy_registry_keys. by apply Forall_forall. Qed.

Lemma toy_magnitude_3_4 : Spec.magnitude [3; 4] ≠ 0.
Proof.
  rewrite magnitude_zero_iff. intros Hall.
  apply Forall_cons in Hall as [H3 _]. lra.
Qed.

Lemma toy_magnitude_1_0 : Spec.magnitude [1; 0] ≠ 0.
Proof.
  rewrite magnitude_zero_iff. intros Hall.
  apply Forall_cons in Hall as [H1 _]. lra.
Qed.

Lemma toy_magnitude_0_0 : Spec.magnitude [0; 0] = 0.
Proof. apply magnitude_zero_iff. by repeat constructor. Qed.

Lemma cosine_similarity_correct_witness :
  length [3; 4] = length [1; 0] ∧
  cosine_similarity [3; 4] [1; 0]
  = Some (Spec.dot_product [3; 4] [1; 0]
          / (Spec.magnitude [3; 4] * Spec.magnitude [1; 0])) ∧
  cosine_similarity [3; 4] [3; 4] = Some 1 ∧
  cosine_similarity [0; 0] [0; 0] = Some 0.
Proof.
  split; [reflexivity|].
  destruct (cosine_similarity_correct [3; 4] [1; 0] [3; 4] eq_refl)
    as (Hab & _ & Hvv & _).
  destruct (cosine_similarity_correct [3; 4] [1; 0] [0; 0] eq_refl)
    as (_ & _ & _ & Hzz).
  split; [exact (Hab toy_magnitude_3_4 toy_magnitude_1_0)|].
  split; [exact (Hvv toy_magnitude_3_4) | exact (Hzz toy_magnitude_0_0)].
Defined.

Lemma classify_batch_is_classify_witness :
  batch_is_map Toy.model ∧
  @classify_batch Toy.model Toy.format [Toy.email_hi; Toy.email_empty] 64
                  fresh_world
  = Some ([Toy.result_hi; Toy.result_empty],
          record_call (EncodeTexts ["Subject: Hi"; ""]%string 64)
                      (set_model_loaded (@init_world Toy.model fresh_world))) ∧
  length [Toy.result_hi; Toy.result_empty]
  = length [Toy.email_hi; Toy.email_empty] ∧
  ∀ i email, [Toy.email_hi; Toy.email_empty] !! i = Some email →
    ∃ r w'', [Toy.result_hi; Toy.result_empty] !! i = Some r ∧
      @classify Toy.model Toy.format
        (get_or_empty email "subject") (get_or_empty email "sender")
        (get_or_empty email "content") (get_or_empty email "sender_name")
        fresh_world
      = Some (r, w'').
Proof.
  split; [exact toy_batch_is_map|]. split; [exact toy_batch|].
  exact (@classify_batch_is_classify Toy.model Toy.format _ _ _ _ _
           toy_batch_is_map toy_batch).
Defined.

Lemma result_invariant_witness :
  @classified Toy.model Toy.format Toy.registry [3; 4] Toy.result_hi ∧
  Forall (λ k, k ∈ Spec.taxonomy) (map fst Toy.registry) ∧
  (0 ≤ confidence Toy.result_hi ≤ 100)%Z ∧
  labels Toy.result_hi ≠ ∅ ∧
  category Toy.result_hi ∈ labels Toy.result_hi ∧
  labels Toy.result_hi ⊆ Spec.category_names.
Proof.
  split; [exact toy_classified_hi|]. split; [exact toy_registry_scored|].
  exact (@result_invariant Toy.model Toy.format _ _ _
           toy_classified_hi toy_registry_scored).
Defined.

Lemma fallback_policy_witness :
  @classified Toy.model Toy.format Toy.registry [0; 0] Toy.result_empty ∧
  ∃ sims c s,
    score_categories [0; 0] Toy.registry [] = Some sims ∧
    max_key sims = Some c ∧ dict_get c sims = Some s ∧
    ((to_confidence s < 30)%Z →
       category Toy.result_empty = "primary"%string ∧
       confidence Toy.result_empty = 50%Z) ∧
    ((30 ≤ to_confidence s)%Z →
       category Toy.result_empty = c ∧
       confidence Toy.result_empty = to_confidence s).
Proof.
  split; [exact toy_classified_empty|].
  exact (@fallback_policy Toy.model Toy.format _ _ _ toy_classified_empty).
Defined.

Lemma selection_first_maximum_witness :
  @classified Toy.model Toy.format Toy.registry [3; 4] Toy.result_hi ∧
  map fst Toy.registry = Spec.taxonomy ∧
  ∃ i c e s,
    Spec.taxonomy !! i = Some c ∧ Toy.registry !! i = Some (c, e) ∧
    cosine_similarity [3; 4] e = Some s ∧
    (∀ j c' e', Toy.registry !! j = Some (c', e') →
       ∃ s', cosine_similarity [3; 4] e' = Some s' ∧ s' <= s ∧
             ((j < i)%nat → s' < s)) ∧
    c ≠ "primary"%string ∧ ("primary"%string ∉ map fst Toy.registry) ∧
    (category Toy.result_hi = c ∨
     (category Toy.result_hi = "primary"%string ∧ (to_confidence s < 30)%Z)).
Proof.
  split; [exact toy_classified_hi|]. split; [exact toy_registry_keys|].
  exact (@selection_first_maximum Toy.model Toy.format _ _ _
           toy_classified_hi toy_registry_keys).
Defined.

Lemma labels_exactly_witness :
  @classified Toy.model Toy.format Toy.registry [3; 4] Toy.result_hi ∧
  ∃ sims, score_categories [3; 4] Toy.registry [] = Some sims ∧
    ∀ c, c ∈ labels Toy.result_hi ↔
         c = category Toy.result_hi ∨
         (c ≠ category Toy.result_hi ∧
          ∃ s, dict_get c sims = Some s ∧ 40 <= s * 150).
Proof.
  split; [exact toy_classified_hi|].
  exact (@labels_exactly Toy.model Toy.format _ _ _ toy_classified_hi).
Defined.

Lemma confidence_between_30_and_95_witness :
  @classified Toy.model Toy.format Toy.registry [0; 0] Toy.result_empty ∧
  (30 ≤ confidence Toy.result_empty ≤ 95)%Z ∧
  (30 ≤ confidence Toy.result_hi ≤ 95)%Z.
Proof.
  split; [exact toy_classified_empty|]. split.
  - exact (@confidence_between_30_and_95 Toy.model Toy.format _ _ _
             toy_classified_empty).
  - exact (@confidence_between_30_and_95 Toy.model Toy.format _ _ _
             toy_classified_hi).
Defined.

End ToyInstances.

(** ** The trace of model calls *)

Section Trace.

Context {model : SentenceTransformer}.
Variable format_2f : R → string.

Lemma init_world_trace (w : world) :
  ∃ calls, encode_trace (embeddings_module (init_world w))
           = encode_trace (embeddings_module w) ++ calls.
Proof.
  unfold init_world. destruct (_initialized (self w)).
  - exists []. by rewrite app_nil_r.
  - by eexists [_].
Qed.

(** A batch that is not empty does call the model: the trace grows by the
    batch call, after the call of the initialization if there was one. *)
Lemma classify_batch_calls (email : gmap string string)
    (emails : list (gmap string string)) (batch_size : nat) (w w' : world)
    (rs : list ClassificationResult) :
  classify_batch format_2f (email :: emails) batch_size w = Some (rs, w') →
  ∃ calls,
    encode_trace (embeddings_module w')
    = encode_trace (embeddings_module w) ++ calls
      ++ [EncodeTexts (map text_of_email (email :: emails)) batch_size].
Proof.
  rewrite classify_batch_unfold. cbv zeta.
  destruct (mapM _ _); [|done]. intros [= _ <-].
  destruct (init_world_trace w) as [calls Hcalls]. exists calls.
  cbn [record_call set_model_loaded embeddings_module encode_trace].
  by rewrite Hcalls, <- app_assoc.
Qed.

(** A single classification calls the model once for the message. *)
Lemma classify_calls (subject sender content sender_name : string)
    (w w' : world) (r : ClassificationResult) :
  classify format_2f subject sender content sender_name w = Some (r, w') →
  ∃ calls,
    encode_trace (embeddings_module w')
    = encode_trace (embeddings_module w) ++ calls
      ++ [EncodeText
            (_prepare_email_text subject sender content sender_name)].
Proof.
  rewrite classify_unfold. cbv zeta.
  destruct (classify_embedding _ _ _); [|done]. intros [= _ <-].
  destruct (init_world_trace w) as [calls Hcalls]. exists calls.
  cbn [record_call set_model_loaded embeddings_module encode_trace].
  by rewrite Hcalls, <- app_assoc.
Qed.

End Trace.

(** * Further properties of the code *)

(** ** The similarity scorer: symmetry, range, scaling, errors *)

Section CosineMore.

Local Open Scope R_scope.

Lemma dot_comm (a b : vec) : np.dot a b = np.dot b a.
Proof.
  revert b. induction a as [|x a IH]; intros [|y b]; simpl; try done.
  rewrite (IH b). destruct (np.dot b a); [|done]. f_equal. lra.
Qed.

(** X1. [cosine_similarity] does not depend on the order of its two
    arguments, whether it returns a number or raises. *)
Theorem cosine_similarity_sym (a b : vec) :
  cosine_similarity a b = cosine_similarity b a.
Proof.
  unfold cosine_similarity. rewrite (dot_comm a b).
  destruct (np.dot b a) as [d|]; [|done].
  rewrite (orb_comm (Py.is_zero (np.linalg_norm a))).
  destruct (_ || _); [done|]. f_equal. f_equal. apply Rmult_comm.
Qed.

(** Cauchy-Schwarz on lists: the square of the dot product is at most the
    product of the sums of squares. *)
Lemma dot_square_le (a b : vec) (d : R) :
  np.dot a b = Some d → d * d <= np.sumsq a * np.sumsq b.
Proof.
  revert b d. induction a as [|x a IH]; intros [|y b] d; simpl; try done.
  - intros [= <-]. lra.
  - destruct (np.dot a b) as [d'|] eqn:Hd; [|done]. intros [= <-].
    specialize (IH b d' Hd).
    pose proof (sumsq_nonneg a) as HA. pose proof (sumsq_nonneg b) as HB.
    set (A := np.sumsq a) in *. set (B := np.sumsq b) in *.
    assert (0 <= x * x * B) as HxB by (apply Rmult_le_pos; nra).
    assert (0 <= y * y * A) as HyA by (apply Rmult_le_pos; nra).
    assert (2 * (x * y) * d' <= x * x * B + y * y * A) as Hmix.
    { destruct (Rle_dec (2 * (x * y) * d') 0) as [Hneg|Hpos]; [lra|].
      assert (0 <= (x * y) * (x * y)) as Hxy by nra.
      assert ((x * y) * (x * y) * (d' * d') <= (x * y) * (x * y) * (A * B))
        as Hsq by (apply Rmult_le_compat_l; lra).
      pose proof (Rle_0_sqr (x * x * B - y * y * A)) as Hdiff.
      unfold Rsqr in Hdiff.
      assert ((x * x * B + y * y * A) * (x * x * B + y * y * A)
              = (x * x * B - y * y * A) * (x * x * B - y * y * A)
                + 4 * ((x * y) * (x * y) * (A * B))) as Ht by ring.
      assert ((2 * (x * y) * d') * (2 * (x * y) * d')
              = 4 * ((x * y) * (x * y) * (d' * d'))) as Hu by ring.
      assert ((2 * (x * y) * d') * (2 * (x * y) * d')
              <= (x * x * B + y * y * A) * (x * x * B + y * y * A)) as Hle
        by lra.
      clear Ht Hu Hdiff Hsq.
      assert (0 <= x * x * B + y * y * A) as Ht0 by lra.
      set (u := 2 * (x * y) * d') in *. set (t := x * x * B + y * y * A) in *.
      destruct (Rle_dec u t) as [|Hgt]; [done|]. exfalso.
      assert (0 < (u - t) * (u + t)) as Hprod
        by (apply Rmult_lt_0_compat; lra).
      replace ((u - t) * (u + t)) with (u * u - t * t) in Hprod by ring.
      lra. }
    replace ((x * y + d') * (x * y + d'))
      with ((x * y) * (x * y) + 2 * (x * y) * d' + d' * d') by ring.
    replace ((x * x + A) * (y * y + B))
      with ((x * y) * (x * y) + (x * x * B + y * y * A) + A * B) by ring.
    lra.
Qed.

(** X2. Whenever [cosine_similarity] returns, the value lies between -1
    and 1. *)
Theorem cosine_similarity_range (a b : vec) (s : R) :
  cosine_similarity a b = Some s → -1 <= s <= 1.
Proof.
  unfold cosine_similarity.
  destruct (np.dot a b) as [d|] eqn:Hd; [|done].
  destruct (Py.is_zero (np.linalg_norm a)) eqn:Ha; simpl.
  { intros [= <-]. lra. }
  destruct (Py.is_zero (np.linalg_norm b)) eqn:Hb; simpl.
  { intros [= <-]. lra. }
  intros [= <-]. apply is_zero_false in Ha, Hb.
  pose proof (dot_square_le a b d Hd) as Hcs.
  unfold np.linalg_norm in *.
  pose proof (sqrt_pos (np.sumsq a)) as Hna.
  pose proof (sqrt_pos (np.sumsq b)) as Hnb.
  pose proof (sqrt_sqrt _ (sumsq_nonneg a)) as Hsa.
  pose proof (sqrt_sqrt _ (sumsq_nonneg b)) as Hsb.
  set (na := sqrt (np.sumsq a)) in *. set (nb := sqrt (np.sumsq b)) in *.
  assert (0 < na * nb) as Hpos by nra.
  assert (d * d <= (na * nb) * (na * nb)) as Hd2 by nra.
  assert (- (na * nb) <= d <= na * nb) as [Hlo Hhi] by nra.
  split.
  - apply Rmult_le_reg_r with (na * nb); [done|].
    unfold Rdiv. rewrite Rmult_assoc, Rinv_l by lra. lra.
  - apply Rmult_le_reg_r with (na * nb); [done|].
    unfold Rdiv. rewrite Rmult_assoc, Rinv_l by lra. lra.
Qed.






(** X4. [cosine_similarity] returns a number exactly when the two vectors
    have the same length; otherwise [np.dot] raises, also when one of the
    vectors is zero (the test on the norms comes after the dot product). *)
Theorem cosine_similarity_defined (a b : vec) :
  is_Some (cosine_similarity a b) ↔ length a = length b.
Proof.
  rewrite <- dot_defined_iff. unfold cosine_similarity. split.
  - destruct (np.dot a b); [by eexists | by intros [? ?]].
  - intros [d ->]. destruct (_ || _); by eexists.
Qed.

End CosineMore.

(** ** The decision: thresholds, fallback labels, the reason *)

Section DecisionMore.

Context {model : SentenceTransformer}.
Variable format_2f : R → string.

Local Open Scope R_scope.

(** X5. The decision in terms of the best similarity [s] itself: below 0.2
    the result is ("primary", 50); from 0.2 up to 19/30 the selected
    category is kept with the integer part of [s * 150] as confidence; from
    19/30 on the confidence is 95. *)
Theorem similarity_thresholds (items : dict vec) (v : vec)
    (r : ClassificationResult) :
  classified format_2f items v r →
  ∃ sims c s,
    score_categories v items [] = Some sims ∧
    max_key sims = Some c ∧ dict_get c sims = Some s ∧
    (s < 1 / 5 → category r = "primary"%string ∧ confidence r = 50%Z) ∧
    (1 / 5 <= s < 19 / 30 →
       category r = c ∧
       IZR (confidence r) <= s * 150 < IZR (confidence r) + 1) ∧
    (19 / 30 <= s → category r = c ∧ confidence r = 95%Z).
Proof.
  intros (sims & Hs & _ & Hr)%classified_inv.
  destruct (decide_result_inv _ _ _ Hr) as (c & s & Hc & Hget & Hcat & Hconf & _).
  exists sims, c, s. split_and!; try done.
  - intros Hlt.
    assert (to_confidence s < 30)%Z as Hlow%Z.ltb_lt
      by (apply to_confidence_lt; [lia | lra]).
    by rewrite Hlow in Hcat, Hconf.
  - intros [Hlo Hhi].
    assert (¬ (to_confidence s < 30)%Z) as Hge.
    { rewrite to_confidence_lt by lia. lra. }
    apply Z.ltb_nlt in Hge. rewrite Hge in Hcat, Hconf.
    split; [done|]. rewrite Hconf, to_confidence_floor.
    unfold Rmin, Rmax. destruct (Rle_dec 0 (s * 150)); [|lra].
    destruct (Rle_dec 95 (s * 150)); [lra|]. apply Zfloor_bound.
  - intros Hhi.
    assert (¬ (to_confidence s < 30)%Z) as Hge.
    { rewrite to_confidence_lt by lia. lra. }
    apply Z.ltb_nlt in Hge. rewrite Hge in Hcat, Hconf.
    split; [done|]. rewrite Hconf. apply to_confidence_top. lra.
Qed.

(** X6. A result of category "primary" (which is no key of the registry)
    comes from the fallback alone: its confidence is 50 and "primary" is its
    only label, no scored category being close enough for a secondary
    label. *)
Theorem primary_has_no_other_label (items : dict vec) (v : vec)
    (r : ClassificationResult) :
  classified format_2f items v r →
  "primary"%string ∉ map fst items →
  category r = "primary"%string →
  confidence r = 50%Z ∧ labels r = {["primary"%string]}.
Proof.
  intros (sims & Hs & Hnd & Hr)%classified_inv Hprimary Hcat.
  destruct (decide_result_inv _ _ _ Hr)
    as (c & s & Hc & Hget & Hcat' & Hconf & Hlabels & _).
  destruct (Z.ltb_spec (to_confidence s) 30) as [Hlow|Hhigh].
  2:{ exfalso. apply Hprimary. rewrite <- Hcat, Hcat'.
      apply dict_get_key in Hget.
      apply (score_categories_keys _ _ _ _ Hs) in Hget as [Hk|Hk];
        [by apply elem_of_nil in Hk | done]. }
  split; [done|]. rewrite Hlabels, Hcat. apply set_eq. intros x.
  rewrite elem_of_list_to_set, elem_of_collect_labels, elem_of_singleton.
  rewrite list_elem_of_singleton. split; [|by left].
  intros [->|(s' & Hin & _ & Hge)]; [done|]. exfalso.
  apply to_confidence_lt in Hlow; [|lia].
  destruct (max_key_first_max _ _ Hc) as (i & s0 & Hi & Hmax).
  assert (s0 = s) as ->.
  { apply list_elem_of_lookup_2 in Hi. apply dict_get_elem_of in Hi; [|done].
    congruence. }
  apply list_elem_of_lookup_1 in Hin as [j Hj].
  destruct (Hmax j x s' Hj) as [Hle _]. lra.
Qed.

End DecisionMore.

(** ** The reason string *)

Section ReasonMore.

Context {model : SentenceTransformer}.
Variable format_2f : R → string.

Local Open Scope R_scope.

Lemma str_app_assoc (s1 s2 s3 : string) :
  ((s1 +:+ s2) +:+ s3)%string = (s1 +:+ s2 +:+ s3)%string.
Proof.
  induction s1 as [|c s1 IH]; [done|].
  change (String c ((s1 +:+ s2) +:+ s3) = String c (s1 +:+ s2 +:+ s3)).
  by rewrite IH.
Qed.

Lemma str_app_nil_r (s : string) : (s +:+ "")%string = s.
Proof.
  induction s as [|c s IH]; [done|].
  change (String c (s +:+ "") = String c s). by rewrite IH.
Qed.

Lemma concat_cons_head (sep x : string) (l : list string) :
  ∃ rest, String.concat sep (x :: l) = (x +:+ rest)%string.
Proof.
  destruct l as [|y l]; simpl.
  - exists EmptyString. by rewrite str_app_nil_r.
  - by eexists.
Qed.

Lemma sorted_desc_snoc (l : list (string * R)) (x : string * R) :
  sorted_desc (l ++ [x]) = insert_desc x (sorted_desc l).
Proof. unfold sorted_desc. by rewrite fold_left_app. Qed.

Lemma insert_desc_perm (x : string * R) (l : list (string * R)) :
  insert_desc x l ≡ₚ x :: l.
Proof.
  induction l as [|y l IH]; simpl; [done|].
  destruct (Rlt_dec (snd y) (snd x)); [done|].
  rewrite IH. apply Permutation_swap.
Qed.

Lemma sorted_desc_perm (l : list (string * R)) : sorted_desc l ≡ₚ l.
Proof.
  induction l as [|x l IH] using rev_ind; [done|].
  rewrite sorted_desc_snoc, insert_desc_perm, IH.
  by rewrite Permutation_cons_append.
Qed.

Lemma insert_desc_sorted (x : string * R) (l : list (string * R)) :
  StronglySorted (λ a b, snd b <= snd a) l →
  StronglySorted (λ a b, snd b <= snd a) (insert_desc x l).
Proof.
  induction 1 as [|y l Hl IH Hy]; simpl.
  - repeat constructor.
  - destruct (Rlt_dec (snd y) (snd x)) as [Hlt|Hge].
    + constructor; [by constructor|]. constructor; [lra|].
      eapply Forall_impl; [done|]. simpl. intros z Hz. lra.
    + constructor; [done|].
      rewrite insert_desc_perm. constructor; [lra | done].
Qed.

Lemma sorted_desc_sorted (l : list (string * R)) :
  StronglySorted (λ a b, snd b <= snd a) (sorted_desc l).
Proof.
  induction l as [|x l IH] using rev_ind; [constructor|].
  rewrite sorted_desc_snoc. by apply insert_desc_sorted.
Qed.

(** The sorted list starts with the item that [max] selects. *)
Lemma sorted_desc_head (first : string * R) (rest : list (string * R)) :
  head (sorted_desc (first :: rest)) = Some (fold_left max_step rest first).
Proof.
  induction rest as [|x rest IH] using rev_ind; [done|].
  rewrite app_comm_cons, sorted_desc_snoc, fold_left_app. simpl.
  destruct (sorted_desc (first :: rest)) as [|y l]; [done|].
  simpl in IH. injection IH as ->. simpl. unfold max_step.
  by destruct (Rlt_dec _ _).
Qed.

(** X7. The reason always starts with the best scored category and its
    formatted similarity, the category that [max] selects, also when the
    fallback has replaced the category of the result by "primary". *)
Theorem reason_starts_with_best (items : dict vec) (v : vec)
    (r : ClassificationResult) :
  classified format_2f items v r →
  ∃ sims c s rest,
    score_categories v items [] = Some sims ∧
    max_key sims = Some c ∧ dict_get c sims = Some s ∧
    reason r
    = ("Semantic(local): " +:+ c +:+ "=" +:+ format_2f s +:+ rest)%string.
Proof.
  intros (sims & Hs & Hnd & Hr)%classified_inv.
  destruct (decide_result_inv _ _ _ Hr)
    as (c & s & Hc & Hget & _ & _ & _ & Hreason).
  destruct sims as [|first others]; [done|].
  pose proof (sorted_desc_head first others) as Hhead.
  simpl in Hc. injection Hc as Hc.
  destruct (fold_left max_step others first) as [c0 s0] eqn:Hbest.
  simpl in Hc. subst c0.
  assert (s0 = s) as ->.
  { destruct (fold_max_step_first_max others first) as (i & Hi & _).
    rewrite Hbest in Hi. apply list_elem_of_lookup_2 in Hi.
    apply dict_get_elem_of in Hi; [|done]. congruence. }
  unfold build_reason in Hreason.
  destruct (sorted_desc (first :: others)) as [|top1 sorted]; [done|].
  injection Hhead as ->. cbn [firstn map] in Hreason.
  destruct (concat_cons_head ", " (c +:+ "=" +:+ format_2f s)
              (map (λ '(cat, sim), cat +:+ "=" +:+ format_2f sim)
                   (take 2 sorted))) as [rest Hrest].
  exists (first :: others), c, s, rest. split_and!; try done.
  - simpl. by rewrite Hbest.
  - rewrite Hreason, Hrest. by rewrite !str_app_assoc.
Qed.

(** X8. The reason lists at most three categories, each with its formatted
    similarity: three when the registry holds at least three, taken from the
    scored categories, in non-increasing order of similarity, and no
    category left out has a greater similarity than a listed one. *)
Theorem reason_lists_top_three (items : dict vec) (v : vec)
    (r : ClassificationResult) :
  classified format_2f items v r →
  ∃ sims top,
    score_categories v items [] = Some sims ∧
    reason r
    = ("Semantic(local): " +:+
       String.concat ", "
         (map (λ '(cat, sim), cat +:+ "=" +:+ format_2f sim) top))%string ∧
    length top = Nat.min 3 (length sims) ∧
    top ⊆+ sims ∧
    StronglySorted (λ a b, snd b <= snd a) top ∧
    ∀ a b, a ∈ top → b ∈ sims → b ∉ top → snd b <= snd a.
Proof.
  intros (sims & Hs & Hnd & Hr)%classified_inv.
  destruct (decide_result_inv _ _ _ Hr) as (_ & _ & _ & _ & _ & _ & _ & Hreason).
  exists sims, (take 3 (sorted_desc sims)).
  pose proof (sorted_desc_perm sims) as Hperm.
  pose proof (sorted_desc_sorted sims) as Hsorted.
  rewrite <- (take_drop 3 (sorted_desc sims)) in Hsorted.
  split_and!; try done.
  - rewrite length_take. by rewrite Hperm.
  - rewrite <- Hperm at 2. apply submseteq_take.
  - by eapply StronglySorted_app_1_l.
  - intros a b Ha Hb Hnot.
    eapply (StronglySorted_app_1_elem_of _ _ _ a b Hsorted); [done|].
    rewrite <- Hperm, <- (take_drop 3 (sorted_desc sims)) in Hb.
    by apply elem_of_app in Hb as [Hb|Hb].
Qed.

End ReasonMore.

(** ** The composite text: emptiness, length, what it ignores *)

Section TextMore.

Context {model : SentenceTransformer}.
Variable format_2f : R → string.

Lemma str_length_app (s1 s2 : string) :
  String.length (s1 +:+ s2) = (String.length s1 + String.length s2)%nat.
Proof.
  induction s1 as [|c s1 IH]; [done|].
  change (S (String.length (s1 +:+ s2))
          = S (String.length s1 + String.length s2)). by rewrite IH.
Qed.

Lemma local_part_length (sender : string) :
  (String.length (default EmptyString (head (split "@" sender)))
   ≤ String.length sender)%nat.
Proof.
  destruct (split_head "@" sender) as (p & ps & -> & _ & Hs). simpl.
  destruct Hs as [->|[rest ->]]; [done|]. rewrite str_length_app. lia.
Qed.

(** X9. The composite text is empty exactly when the four fields are
    empty: every line that is present starts with its tag. *)
Theorem prepare_email_text_empty
    (subject sender content sender_name : string) :
  _prepare_email_text subject sender content sender_name = EmptyString ↔
  subject = EmptyString ∧ sender = EmptyString ∧
  content = EmptyString ∧ sender_name = EmptyString.
Proof.
  unfold _prepare_email_text.
  generalize (str_take 1500 content). intros truncated.
  generalize (default EmptyString (head (split "@" sender))). intros local.
  destruct subject, sender_name, sender, content; split;
    try (intros (? & ? & ? & ?); discriminate); try done;
    intros Htext; vm_compute in Htext; discriminate Htext.
Qed.

(** X10. The length of the composite text is bounded by the lengths of the
    subject and of the longer of display name and address, plus at most 1500
    characters of content and 26 characters of tags and newlines. *)
Theorem prepare_email_text_length
    (subject sender content sender_name : string) :
  (String.length (_prepare_email_text subject sender content sender_name)
   ≤ String.length subject
     + Nat.max (String.length sender_name) (String.length sender)
     + Nat.min 1500 (String.length content) + 26)%nat.
Proof.
  unfold _prepare_email_text.
  pose proof (str_take_length 1500 content) as Htake.
  pose proof (local_part_length sender) as Hlocal.
  revert Htake Hlocal.
  generalize (str_take 1500 content). intros truncated.
  generalize (default EmptyString (head (split "@" sender))). intros local.
  intros Htake Hlocal.
  destruct (truthy subject), (truthy sender_name), (truthy sender),
    (truthy content); cbn [app String.concat];
    rewrite ?str_length_app; cbn [String.length newline]; lia.
Qed.

Lemma str_take_app (n : nat) (p t : string) :
  (n ≤ String.length p)%nat → str_take n (p +:+ t) = str_take n p.
Proof.
  revert p. induction n as [|n IH]; intros p Hlen.
  - generalize (p +:+ t)%string. intros q. by destruct p, q.
  - destruct p as [|c p]; simpl in Hlen; [lia|].
    change (String c (str_take n (p +:+ t)) = String c (str_take n p)).
    rewrite IH; [done | lia].
Qed.

Lemma truthy_app (p t : string) : truthy p = true → truthy (p +:+ t) = true.
Proof. by destruct p. Qed.

(** The two entry points read the fields of a message through its
    composite text only. *)
Lemma classify_same_text (subject sender content sender_name : string)
    (subject' sender' content' sender_name' : string) (w : world) :
  _prepare_email_text subject sender content sender_name
  = _prepare_email_text subject' sender' content' sender_name' →
  classify format_2f subject sender content sender_name w
  = classify format_2f subject' sender' content' sender_name' w.
Proof. intros Htext. by rewrite !classify_unfold, Htext. Qed.

(** X11. What follows the first 1500 characters of the content has no
    effect on [classify]: the result and the world after the call are the
    same. *)
Theorem classify_ignores_content_tail
    (subject sender sender_name p t1 t2 : string) (w : world) :
  (1500 ≤ String.length p)%nat →
  classify format_2f subject sender (p +:+ t1) sender_name w
  = classify format_2f subject sender (p +:+ t2) sender_name w.
Proof.
  intros Hlen. apply classify_same_text. unfold _prepare_email_text.
  assert (truthy p = true) as Hp by (destruct p; [simpl in Hlen; lia | done]).
  by rewrite !truthy_app, !str_take_app.
Qed.

Lemma split_local (sep : ascii) (local rest : string) :
  (∀ c, c ∈ String.list_ascii_of_string local → c ≠ sep) →
  head (split sep (local +:+ String sep rest)) = Some local.
Proof.
  induction local as [|c local IH]; intros Hfree.
  - change (head (split sep (String sep rest)) = Some EmptyString).
    simpl. by rewrite Ascii.eqb_refl.
  - change (head (split sep (String c (local +:+ String sep rest)))
            = Some (String c local)).
    simpl. destruct (Ascii.eqb_spec c sep) as [->|Hne].
    { exfalso. apply (Hfree sep); [by left | done]. }
    specialize (IH (λ c' Hc', Hfree c' (list_elem_of_further _ _ _ Hc'))).
    destruct (split sep (local +:+ String sep rest)) as [|q qs];
      simplify_eq/=. done.
Qed.

(** X12. The sender address has no effect on [classify] when a display
    name is given, and otherwise only its part before the first ['@'] has:
    two addresses with the same local part are classified alike. *)
Theorem classify_sender_dependence
    (subject content : string) (w : world) :
  (∀ sender_name sender sender',
     sender_name ≠ EmptyString →
     classify format_2f subject sender content sender_name w
     = classify format_2f subject sender' content sender_name w) ∧
  (∀ local domain domain',
     (∀ c, c ∈ String.list_ascii_of_string local → c ≠ "@"%char) →
     classify format_2f subject (local +:+ "@" +:+ domain) content "" w
     = classify format_2f subject (local +:+ "@" +:+ domain') content "" w).
Proof.
  split.
  - intros sender_name sender sender' Hname. apply classify_same_text.
    unfold _prepare_email_text. by destruct sender_name.
  - intros local domain domain' Hfree. apply classify_same_text.
    unfold _prepare_email_text.
    change ("@" +:+ domain)%string with (String "@" domain).
    change ("@" +:+ domain')%string with (String "@" domain').
    rewrite !(split_local "@" local) by done.
    assert (∀ d, truthy (local +:+ String "@" d) = true) as Htruthy.
    { intros d. by destruct local. }
    by rewrite !Htruthy.
Qed.

End TextMore.

(** ** Initialization, model calls and the order of calls *)

Section EngineMore.

Context {model : SentenceTransformer}.
Variable format_2f : R → string.

Lemma initialize_init_world (w : world) :
  initialize_category_embeddings w = Some (tt, init_world w).
Proof.
  unfold initialize_category_embeddings, init_world, bind, gets.
  by destruct (_initialized (self w)).
Qed.

(** X13. [initialize_category_embeddings] always returns, leaves the
    classifier initialized, and a second run changes nothing: neither the
    registry nor the trace of model calls. *)
Theorem initialize_once (w : world) :
  ∃ w1, initialize_category_embeddings w = Some (tt, w1) ∧
        _initialized (self w1) = true ∧
        initialize_category_embeddings w1 = Some (tt, w1).
Proof.
  exists (init_world w). rewrite !initialize_init_world.
  split_and!; [done | apply init_world_initialized |].
  by rewrite init_world_idem.
Qed.

Lemma store_embeddings_fresh (pairs : list (string * vec)) (d : dict vec) :
  NoDup (map fst d ++ map fst pairs) → store_embeddings pairs d = d ++ pairs.
Proof.
  revert d. induction pairs as [|[k e] pairs IH]; intros d Hnd; simpl.
  - by rewrite app_nil_r.
  - apply NoDup_app in Hnd as (Hd & Hdisj & Hpairs).
    apply NoDup_cons in Hpairs as [Hk Hpairs].
    assert (k ∉ map fst d) as Hfresh.
    { intros Hin. apply (Hdisj k Hin). by left. }
    rewrite dict_set_fresh by done. rewrite IH.
    + by rewrite <- app_assoc.
    + rewrite map_app. simpl. rewrite <- app_assoc. simpl.
      apply NoDup_app. split_and!; [done | | by apply NoDup_cons].
      intros x Hx [->|Hin]%elem_of_cons; [done|].
      apply (Hdisj x Hx). by right.
Qed.

Lemma zip_keys_NoDup (names : list string) (embeddings : list vec) :
  NoDup names → NoDup (map fst (zip names embeddings)).
Proof.
  intros Hnd. revert embeddings.
  induction Hnd as [|c names Hc Hnd IH]; intros [|e embeddings]; simpl;
    try constructor; [|by apply IH].
  intros Hin. by apply zip_keys_subset in Hin.
Qed.

(** X14. On a classifier that is not initialized and whose registry is
    empty, initialization makes one batch call for the texts of the
    categories with batch size 32, loads the model, and stores the
    embeddings it gets under the category names in the taxonomy order; when
    the provider returns fewer rows than texts, only the first categories
    are registered. *)
Theorem initialize_registry (w : world) :
  _initialized (self w) = false →
  _category_embeddings (self w) = [] →
  ∃ w1, initialize_category_embeddings w = Some (tt, w1) ∧
        _category_embeddings (self w1)
        = zip Spec.taxonomy (encode_batch category_texts 32) ∧
        encode_trace (embeddings_module w1)
        = encode_trace (embeddings_module w)
          ++ [EncodeTexts category_texts 32] ∧
        _model_loaded (embeddings_module w1) = true.
Proof.
  intros Hinit Hempty. exists (init_world w).
  rewrite initialize_init_world. split; [done|].
  rewrite init_world_registry by done. rewrite Hempty.
  unfold init_world. rewrite Hinit. split_and!; [|done|done].
  rewrite store_embeddings_fresh; [done|].
  apply (zip_keys_NoDup Spec.taxonomy). apply taxonomy_NoDup.
Qed.

(** The world a call of [classify] leaves. *)
Lemma classify_world (subject sender content sender_name : string)
    (w w' : world) (r : ClassificationResult) :
  classify format_2f subject sender content sender_name w = Some (r, w') →
  w' = record_call
         (EncodeText (_prepare_email_text subject sender content sender_name))
         (set_model_loaded (init_world w)).
Proof.
  rewrite classify_unfold. cbv zeta.
  destruct (classify_embedding _ _ _); [|done]. by intros [= _ <-].
Qed.

(** X15. A call of [classify] that returns has made one model call for the
    composite text of the message, after the one batch call of the
    initialization when the classifier was not initialized; it leaves the
    model loaded and the classifier initialized, and an initialized
    classifier unchanged. *)
Theorem classify_effects (subject sender content sender_name : string)
    (w w' : world) (r : ClassificationResult) :
  classify format_2f subject sender content sender_name w = Some (r, w') →
  encode_trace (embeddings_module w')
  = encode_trace (embeddings_module w)
    ++ (if _initialized (self w) then []
        else [EncodeTexts category_texts 32])
    ++ [EncodeText (_prepare_email_text subject sender content sender_name)] ∧
  _model_loaded (embeddings_module w') = true ∧
  _initialized (self w') = true ∧
  (_initialized (self w) = true → self w' = self w).
Proof.
  rewrite classify_unfold. cbv zeta.
  destruct (classify_embedding _ _ _); [|done]. intros [= _ <-].
  cbn [record_call set_model_loaded embeddings_module encode_trace
       _model_loaded self].
  split_and!; [|done|apply init_world_initialized|].
  - unfold init_world. destruct (_initialized (self w)); [done|].
    cbn [record_call set_model_loaded set_initialized set_category_embeddings
         embeddings_module encode_trace]. by rewrite <- app_assoc.
  - intros Hinit. by rewrite init_world_same.
Qed.

(** X16. A call of [classify_batch] on a batch that is not empty, when it
    returns, has made one model call for the whole batch: the composite
    texts of the messages in the order of the batch, with the batch size it
    was given (after the batch call of the initialization when the
    classifier was not initialized). *)
Theorem classify_batch_effects (email : gmap string string)
    (emails : list (gmap string string)) (batch_size : nat) (w w' : world)
    (rs : list ClassificationResult) :
  classify_batch format_2f (email :: emails) batch_size w = Some (rs, w') →
  encode_trace (embeddings_module w')
  = encode_trace (embeddings_module w)
    ++ (if _initialized (self w) then []
        else [EncodeTexts category_texts 32])
    ++ [EncodeTexts (map text_of_email (email :: emails)) batch_size] ∧
  _model_loaded (embeddings_module w') = true ∧
  _initialized (self w') = true ∧
  (_initialized (self w) = true → self w' = self w).
Proof.
  rewrite classify_batch_unfold. cbv zeta.
  destruct (mapM _ _); [|done]. intros [= _ <-].
  cbn [record_call set_model_loaded embeddings_module encode_trace
       _model_loaded self].
  split_and!; [|done|apply init_world_initialized|].
  - unfold init_world. destruct (_initialized (self w)); [done|].
    cbn [record_call set_model_loaded set_initialized set_category_embeddings
         embeddings_module encode_trace]. by rewrite <- app_assoc.
  - intros Hinit. by rewrite init_world_same.
Qed.

(** X17. Without any assumption on the provider, [classify_batch] returns
    one result per embedding the provider returned for the batch, in their
    order: the result at an index is the scoring and decision of the
    embedding at that index against the registry, so that fewer rows than
    messages give fewer results. *)
Theorem classify_batch_follows_provider (email : gmap string string)
    (emails : list (gmap string string)) (batch_size : nat) (w w' : world)
    (rs : list ClassificationResult) :
  classify_batch format_2f (email :: emails) batch_size w = Some (rs, w') →
  Forall2 (λ email_embedding r,
             classify_embedding format_2f (_category_embeddings (self w'))
                                email_embedding = Some r)
          (encode_batch (map text_of_email (email :: emails)) batch_size) rs.
Proof.
  rewrite classify_batch_unfold. cbv zeta.
  destruct (mapM _ _) as [rs0|] eqn:Hmap; [|done].
  intros [= <- <-]. by apply mapM_Some in Hmap.
Qed.

(** A call that returns leaves a world from which initialization has
    nothing to do, with the registry the call worked with. *)
Lemma call_step_registry (w w' : world) :
  call_step format_2f w w' →
  _category_embeddings (self (init_world w'))
  = _category_embeddings (self (init_world w)).
Proof.
  intros [subject sender content sender_name w0 r w1 Hc
         |emails batch_size w0 rs w1 Hc].
  - apply classify_self in Hc. rewrite init_world_same.
    + by rewrite Hc.
    + rewrite Hc. apply init_world_initialized.
  - destruct emails as [|email emails].
    { unfold classify_batch, ret in Hc. by simplify_eq. }
    rewrite classify_batch_unfold in Hc. cbv zeta in Hc.
    destruct (mapM _ _); [|done]. injection Hc as _ <-.
    rewrite init_world_same; [done|]. apply init_world_initialized.
Qed.

(** X18. The result of [classify] does not depend on the calls made before:
    after any sequence of calls of [classify] and [classify_batch] that
    returned, [classify] returns for a message what it returns without them
    (and raises where it raises without them). *)
Theorem classify_history_independent (w w' : world)
    (subject sender content sender_name : string) :
  rtc (call_step format_2f) w w' →
  fst <$> classify format_2f subject sender content sender_name w'
  = fst <$> classify format_2f subject sender content sender_name w.
Proof.
  intros Hcalls. rewrite !classify_unfold. cbv zeta.
  assert (_category_embeddings (self (init_world w'))
          = _category_embeddings (self (init_world w))) as ->.
  { induction Hcalls as [|w0 w1 w2 Hstep _ IH]; [done|].
    rewrite IH. by apply call_step_registry. }
  by destruct (classify_embedding _ _ _).
Qed.

(** X19. [classify_email] works on one global classifier: the first call
    creates it and, when it returns, leaves it stored and initialized; a
    later call reuses it, makes one model call for its message only, and
    leaves the stored classifier as it was. *)
Theorem classify_email_reuses_instance (p p1 : process)
    (subject sender content sender_name : string)
    (r : ClassificationResult) :
  classify_email format_2f subject sender content sender_name p
  = Some (r, p1) →
  (∃ classifier, _classifier_instance p1 = Some classifier ∧
                 _initialized classifier = true) ∧
  ∀ subject' sender' content' sender_name' r' p2,
    classify_email format_2f subject' sender' content' sender_name' p1
    = Some (r', p2) →
    _classifier_instance p2 = _classifier_instance p1 ∧
    encode_trace (local_embeddings p2)
    = encode_trace (local_embeddings p1)
      ++ [EncodeText (_prepare_email_text subject' sender' content'
                                          sender_name')].
Proof.
  unfold classify_email at 1.
  destruct (get_semantic_classifier p) as [classifier p0].
  destruct (classify _ _ _ _ _ _) as [[r0 w']|] eqn:Hfirst; [|done].
  intros Heq. simplify_eq.
  apply classify_world in Hfirst as ->.
  split; [eexists; split; [done|]; apply init_world_initialized|].
  intros subject' sender' content' sender_name' r' p2.
  unfold classify_email, get_semantic_classifier.
  cbn [_classifier_instance local_embeddings self embeddings_module
       record_call set_model_loaded].
  destruct (classify format_2f subject' sender' content' sender_name' _)
    as [[r1 w'']|] eqn:Hsecond; [|done].
  intros Heq. simplify_eq. apply classify_world in Hsecond as ->.
  rewrite init_world_same by apply init_world_initialized. done.
Qed.

End EngineMore.

(** ** The further properties on the small model *)

Section ToyMore.

Local Open Scope R_scope.

Lemma toy_cosine_3_4_1_0 : cosine_similarity [3; 4] [1; 0] = Some (3 / 5).
Proof.
  eapply (cosine_eval _ _ _ 5 1);
    [reflexivity | lra | simpl; lra | lra | simpl; lra | lra].
Qed.

Lemma cosine_similarity_range_witness :
  cosine_similarity [3; 4] [1; 0] = Some (3 / 5) ∧ -1 <= 3 / 5 <= 1.
Proof.
  split; [exact toy_cosine_3_4_1_0|].
  exact (cosine_similarity_range [3; 4] [1; 0] (3 / 5) toy_cosine_3_4_1_0).
Defined.



Lemma similarity_thresholds_witness :
  @classified Toy.model Toy.format Toy.registry [3; 4] Toy.result_hi ∧
  ∃ sims c s,
    score_categories [3; 4] Toy.registry [] = Some sims ∧
    max_key sims = Some c ∧ dict_get c sims = Some s ∧
    (s < 1 / 5 → category Toy.result_hi = "primary"%string ∧
                 confidence Toy.result_hi = 50%Z) ∧
    (1 / 5 <= s < 19 / 30 →
       category Toy.result_hi = c ∧
       IZR (confidence Toy.result_hi) <= s * 150
         < IZR (confidence Toy.result_hi) + 1) ∧
    (19 / 30 <= s →
       category Toy.result_hi = c ∧ confidence Toy.result_hi = 95%Z).
Proof.
  split; [exact toy_classified_hi|].
  exact (@similarity_thresholds Toy.model Toy.format _ _ _ toy_classified_hi).
Defined.

Lemma toy_primary_not_registered : "primary"%string ∉ map fst Toy.registry.
Proof. rewrite toy_registry_keys. apply primary_not_scored. Qed.

Lemma primary_has_no_other_label_witness :
  @classified Toy.model Toy.format Toy.registry [0; 0] Toy.result_empty ∧
  ("primary"%string ∉ map fst Toy.registry) ∧
  category Toy.result_empty = "primary"%string ∧
  confidence Toy.result_empty = 50%Z ∧
  labels Toy.result_empty = {["primary"%string]}.
Proof.
  split; [exact toy_classified_empty|].
  split; [exact toy_primary_not_registered|]. split; [reflexivity|].
  exact (@primary_has_no_other_label Toy.model Toy.format _ _ _
           toy_classified_empty toy_primary_not_registered eq_refl).
Defined.

Lemma reason_starts_with_best_witness :
  @classified Toy.model Toy.format Toy.registry [3; 4] Toy.result_hi ∧
  ∃ sims c s rest,
    score_categories [3; 4] Toy.registry [] = Some sims ∧
    max_key sims = Some c ∧ dict_get c sims = Some s ∧
    reason Toy.result_hi
    = ("Semantic(local): " +:+ c +:+ "=" +:+ Toy.format s +:+ rest)%string.
Proof.
  split; [exact toy_classified_hi|].
  exact (@reason_starts_with_best Toy.model Toy.format _ _ _
           toy_classified_hi).
Defined.

Lemma reason_lists_top_three_witness :
  @classified Toy.model Toy.format Toy.registry [3; 4] Toy.result_hi ∧
  ∃ sims top,
    score_categories [3; 4] Toy.registry [] = Some sims ∧
    reason Toy.result_hi
    = ("Semantic(local): " +:+
       String.concat ", "
         (map (λ '(cat, sim), cat +:+ "=" +:+ Toy.format sim) top))%string ∧
    length top = Nat.min 3 (length sims) ∧
    top ⊆+ sims ∧
    StronglySorted (λ a b, snd b <= snd a) top ∧
    ∀ a b, a ∈ top → b ∈ sims → b ∉ top → snd b <= snd a.
Proof.
  split; [exact toy_classified_hi|].
  exact (@reason_lists_top_three Toy.model Toy.format _ _ _
           toy_classified_hi).
Defined.

Lemma long_prefix_length : (1500 ≤ String.length long_prefix)%nat.
Proof. by vm_compute. Qed.

Lemma classify_ignores_content_tail_witness :
  (1500 ≤ String.length long_prefix)%nat ∧
  @classify Toy.model Toy.format "Hi" "ann@example.org"
            (long_prefix +:+ "one") "" fresh_world
  = @classify Toy.model Toy.format "Hi" "ann@example.org"
              (long_prefix +:+ "two") "" fresh_world.
Proof.
  split; [exact long_prefix_length|].
  exact (@classify_ignores_content_tail Toy.model Toy.format _ _ _ _ _ _ _
           long_prefix_length).
Defined.

Lemma toy_fresh_not_initialized : _initialized (self fresh_world) = false.
Proof. reflexivity. Qed.

Lemma toy_fresh_registry_empty : _category_embeddings (self fresh_world) = [].
Proof. reflexivity. Qed.

Lemma initialize_registry_witness :
  _initialized (self fresh_world) = false ∧
  _category_embeddings (self fresh_world) = [] ∧
  ∃ w1, @initialize_category_embeddings Toy.model fresh_world
        = Some (tt, w1) ∧
        _category_embeddings (self w1)
        = zip Spec.taxonomy (@encode_batch Toy.model category_texts 32) ∧
        encode_trace (embeddings_module w1)
        = encode_trace (embeddings_module fresh_world)
          ++ [EncodeTexts category_texts 32] ∧
        _model_loaded (embeddings_module w1) = true.
Proof.
  split; [exact toy_fresh_not_initialized|].
  split; [exact toy_fresh_registry_empty|].
  exact (@initialize_registry Toy.model fresh_world
           toy_fresh_not_initialized toy_fresh_registry_empty).
Defined.

Lemma classify_effects_witness :
  encode_trace
    (embeddings_module
       (record_call (EncodeText "Subject: Hi")
          (set_model_loaded (@init_world Toy.model fresh_world))))
  = [EncodeTexts category_texts 32; EncodeText "Subject: Hi"].
Proof.
  destruct (@classify_effects Toy.model Toy.format _ _ _ _ _ _ _
              toy_single_hi) as [Htrace _].
  exact Htrace.
Defined.

Lemma classify_batch_effects_witness :
  encode_trace
    (embeddings_module
       (record_call (EncodeTexts ["Subject: Hi"; ""]%string 64)
          (set_model_loaded (@init_world Toy.model fresh_world))))
  = [EncodeTexts category_texts 32;
     EncodeTexts ["Subject: Hi"; ""]%string 64].
Proof.
  destruct (@classify_batch_effects Toy.model Toy.format _ _ _ _ _ _
              toy_batch) as [Htrace _].
  exact Htrace.
Defined.

Lemma classify_batch_follows_provider_witness :
  Forall2 (λ email_embedding r,
             classify_embedding Toy.format Toy.registry email_embedding
             = Some r)
          [[3; 4]; [0; 0]] [Toy.result_hi; Toy.result_empty].
Proof.
  exact (@classify_batch_follows_provider Toy.model Toy.format _ _ _ _ _ _
           toy_batch).
Defined.

Lemma toy_calls :
  rtc (@call_step Toy.model Toy.format) fresh_world
      (record_call (EncodeText "Subject: Hi")
         (set_model_loaded (@init_world Toy.model fresh_world))).
Proof. apply rtc_once. exact (step_classify _ _ _ _ _ _ _ _ toy_single_hi). Qed.

Lemma classify_history_independent_witness :
  fst <$> @classify Toy.model Toy.format "Hi" "" "" ""
            (record_call (EncodeText "Subject: Hi")
               (set_model_loaded (@init_world Toy.model fresh_world)))
  = fst <$> @classify Toy.model Toy.format "Hi" "" "" "" fresh_world.
Proof.
  exact (@classify_history_independent Toy.model Toy.format _ _
           "Hi" "" "" ""%string toy_calls).
Defined.

Lemma toy_classify_email :
  @classify_email Toy.model Toy.format "Hi" "" "" "" fresh_process
  = Some (Toy.result_hi,
          {| _classifier_instance :=
               Some (self (@init_world Toy.model fresh_world));
             local_embeddings :=
               embeddings_module
                 (record_call (EncodeText "Subject: Hi")
                    (set_model_loaded (@init_world Toy.model fresh_world))) |}).
Proof.
  unfold classify_email. cbn [get_semantic_classifier fresh_process
    _classifier_instance local_embeddings].
  change {| self := __init__;
            embeddings_module :=
              {| _model_loaded := false; encode_trace := [] |} |}
    with fresh_world.
  by rewrite toy_single_hi.
Qed.

Lemma classify_email_reuses_instance_witness :
  ∃ classifier,
    Some (self (@init_world Toy.model fresh_world)) = Some classifier ∧
    _initialized classifier = true.
Proof.
  destruct (@classify_email_reuses_instance Toy.model Toy.format _ _ _ _ _ _ _
              toy_classify_email) as [Hinstance _].
  exact Hinstance.
Defined.

End ToyMore.

(** ** Dimension errors and the registry over calls *)

Section ErrorsMore.

Context {model : SentenceTransformer}.
Variable format_2f : R → string.

Lemma score_categories_mismatch (v : vec) (items : dict vec) (acc : dict R)
    (k : string) (e : vec) :
  (k, e) ∈ items → length v ≠ length e →
  score_categories v items acc = None.
Proof.
  revert acc. induction items as [|[k' e'] items IH]; intros acc Hin Hlen.
  { by apply elem_of_nil in Hin. }
  simpl. destruct (cosine_similarity v e') as [s|] eqn:Hcos.
  - apply elem_of_cons in Hin as [[= <- <-]|Hin]; [|by apply IH].
    exfalso. apply Hlen. apply dot_defined_iff.
    unfold cosine_similarity in Hcos. by destruct (np.dot _ _).
  - done.
Qed.

(** X22. When the embedding of the message has another length than the
    embedding of a registered category, [classify] raises (the [ValueError]
    of [np.dot]): it returns no result, not even the fallback. *)
Theorem classify_dimension_error
    (subject sender content sender_name : string) (w : world)
    (k : string) (e : vec) :
  (k, e) ∈ _category_embeddings (self (init_world w)) →
  length (encode (_prepare_email_text subject sender content sender_name))
  ≠ length e →
  classify format_2f subject sender content sender_name w = None.
Proof.
  intros Hin Hlen. rewrite classify_unfold. cbv zeta.
  unfold classify_embedding.
  by rewrite (score_categories_mismatch _ _ _ k e Hin Hlen).
Qed.

Lemma call_step_self (w w' : world) :
  call_step format_2f w w' → self w' = self w ∨ self w' = self (init_world w).
Proof.
  intros [subject sender content sender_name w0 r w1 Hc
         |emails batch_size w0 rs w1 Hc].
  - right. by eapply classify_self.
  - by eapply classify_batch_self.
Qed.

(** X23. The calls keep the registry within the scored categories: from a
    world whose registry holds only names of the taxonomy (a new classifier
    has an empty one), any sequence of calls of [classify] and
    [classify_batch] that return leads to such a world. *)
Theorem registry_stays_scored (w w' : world) :
  rtc (call_step format_2f) w w' →
  registry_ok (self w) → registry_ok (self w').
Proof.
  induction 1 as [|w0 w1 w2 Hstep _ IH]; [done|]. intros Hok. apply IH.
  destruct (call_step_self _ _ Hstep) as [-> | ->]; [done|].
  by apply init_world_registry_ok.
Qed.

End ErrorsMore.

Section ToyErrors.

Local Open Scope R_scope.

Lemma toy_ragged_registered :
  ("work"%string, [1; 0])
  ∈ _category_embeddings (self (@init_world ragged_model fresh_world)).
Proof. by left. Qed.

Lemma toy_ragged_lengths :
  length (@encode ragged_model (_prepare_email_text "Hi" "" "" ""))
  ≠ length [1; 0].
Proof. by intros [=]. Qed.

Lemma classify_dimension_error_witness :
  @classify ragged_model Toy.format "Hi" "" "" "" fresh_world = None.
Proof.
  exact (@classify_dimension_error ragged_model Toy.format _ _ _ _ _ _ _
           toy_ragged_registered toy_ragged_lengths).
Defined.

Lemma registry_stays_scored_witness :
  registry_ok (self fresh_world) ∧
  registry_ok
    (self (record_call (EncodeText "Subject: Hi")
             (set_model_loaded (@init_world Toy.model fresh_world)))).
Proof.
  split; [exact registry_ok_new|].
  exact (@registry_stays_scored Toy.model Toy.format _ _ toy_calls
           registry_ok_new).
Defined.

Lemma toy_dimension_one (text : string) :
  length (@encode Toy.model text) = 2%nat.
Proof.
  destruct text as [|c text]; [done|]. simpl. unfold Toy.embed.
  repeat (destruct (Ascii.eqb c _); [done|]). done.
Qed.

Lemma toy_dimension_many (texts : list string) (batch_size : nat) :
  length (@encode_batch Toy.model texts batch_size) = length texts ∧
  Forall (λ e, length e = 2%nat) (@encode_batch Toy.model texts batch_size).
Proof.
  simpl. split; [by rewrite length_map|].
  apply Forall_forall. intros e (text & -> & _)%list_elem_of_fmap.
  apply toy_dimension_one.
Qed.

Lemma classify_total_witness :
  is_Some (@classify Toy.model Toy.format "Hi" "ann@example.org" "Hello" ""
             fresh_world).
Proof.
  exact (@classify_total Toy.model Toy.format 2 _ _ _ _ fresh_world eq_refl
           toy_dimension_one toy_dimension_many).
Defined.

Lemma toy_single_empty :
  is_Some (@classify Toy.model Toy.format "" "" "" "" fresh_world).
Proof.
  rewrite classify_unfold. cbv zeta. rewrite toy_registry.
  change (encode (_prepare_email_text "" "" "" "")) with [0; 0].
  rewrite toy_classify_empty. by eexists.
Qed.

Lemma toy_singles_return :
  Forall (λ email,
            is_Some (@classify Toy.model Toy.format
                       (get_or_empty email "subject")
                       (get_or_empty email "sender")
                       (get_or_empty email "content")
                       (get_or_empty email "sender_name") fresh_world))
         [Toy.email_hi; Toy.email_empty].
Proof.
  repeat constructor.
  - change (is_Some (@classify Toy.model Toy.format "Hi" "" "" ""
                       fresh_world)).
    rewrite toy_single_hi. by eexists.
  - exact toy_single_empty.
Qed.

Lemma classify_batch_total_witness :
  is_Some (@classify_batch Toy.model Toy.format
             [Toy.email_hi; Toy.email_empty] 64 fresh_world).
Proof.
  exact (@classify_batch_total Toy.model Toy.format _ 64 fresh_world
           toy_batch_is_map toy_singles_return).
Defined.

Lemma toy_ann_local :
  ∀ c, c ∈ String.list_ascii_of_string "ann" → c ≠ "@"%char.
Proof.
  intros c Hc. repeat (apply elem_of_cons in Hc as [->|Hc]; [done|]).
  by apply elem_of_nil in Hc.
Qed.

Lemma toy_name_given : "Ann"%string ≠ EmptyString.
Proof. done. Qed.

Lemma classify_sender_dependence_witness :
  @classify Toy.model Toy.format "Hi" "ann@example.org" "Hello" "Ann"
            fresh_world
  = @classify Toy.model Toy.format "Hi" "bob@example.com" "Hello" "Ann"
              fresh_world ∧
  @classify Toy.model Toy.format "Hi" ("ann" +:+ "@" +:+ "example.org")
            "Hello" "" fresh_world
  = @classify Toy.model Toy.format "Hi" ("ann" +:+ "@" +:+ "example.com")
              "Hello" "" fresh_world.
Proof.
  destruct (@classify_sender_dependence Toy.model Toy.format "Hi" "Hello"
              fresh_world) as [Hname Hdomain].
  split.
  - exact (Hname _ _ _ toy_name_given).
  - exact (Hdomain _ _ _ toy_ann_local).
Defined.

End ToyErrors.
